(** * SecureConfigManager and the setup-data validator

    A shallow embedding of [config_manager.py]: the encrypted
    configuration store ([SecureConfigManager]) and the pure validator
    ([validate_setup_data]).

    The manager talks to three things outside the module: the filesystem,
    the [cryptography.fernet] cipher and the [json] codec.  The filesystem
    is an explicit [World] threaded through a state-and-exception monad;
    the two libraries are interfaces ([FernetLib], [JsonLib]) whose laws are
    the documented contracts the manager relies on.

    After them come the callers of the manager in [app.py] (the handlers
    [index], [setup], [reset_config], the first lines of [chat] and
    [poster], and [_initialize_agent_from_config]), the poster history
    [poster] keeps in the session, and [ServicePathResolver] of
    [path_resolver.py]. *)

From Stdlib Require Import ZArith Ascii.
From stdpp Require Import gmap strings list fin_maps countable.

Set Warnings "-register-all".
Set Default Proof Using "Type*".

(** ** Python values *)

(** The values a configuration mapping can hold: what [json] can carry.
    (Floats are left out: no field of the configuration is one.)
    A [dict] with string keys is a [gmap], whose equality is Python's
    [==] on dicts: same keys, same values, insertion order ignored. *)
Inductive pyval :=
  | PNone
  | PBool (b : bool)
  | PInt (n : Z)
  | PStr (s : string)
  | PList (l : list pyval)
  | PDict (d : gmap string pyval).

(** [bytes] and [str] are both sequences of 8-bit characters here. *)
Abbreviation bytes := string (only parsing).
Abbreviation str := string (only parsing).
Abbreviation Path := string (only parsing).
Abbreviation Dict := (gmap string pyval) (only parsing).

(** Python truthiness, as used by [not x], [x and y], [x or y]. *)
Definition truthy (v : pyval) : bool :=
  match v with
  | PNone => false
  | PBool b => b
  | PInt n => negb (n =? 0)%Z
  | PStr s => negb (String.length s =? 0)
  | PList l => negb (length l =? 0)
  | PDict d => negb (size d =? 0)
  end.

(** [d.get(k)]: the value, or [None] when the key is missing. *)
Definition dict_get (d : Dict) (k : string) : pyval :=
  default PNone (d !! k).

(** [v == s] for a string literal [s]. *)
Definition eq_str (v : pyval) (s : string) : bool :=
  match v with
  | PStr t => bool_decide (t = s)
  | _ => false
  end.

(** ** Exceptions *)

Inductive exn :=
  | PermissionError (p : Path)
  | FileNotFoundError (p : Path)
  | InvalidToken
  | UnicodeDecodeError
  | JSONDecodeError
  | KeyError (k : string)
  | AttributeError
  (** [ValueError] raised by [Fernet(key)] on a malformed key *)
  | ValueError_Fernet_key
  (** [ValueError(f"Failed to load configuration: {e}")] *)
  | ValueError_Failed_to_load (e : exn).

(** The class a caller can catch an exception by. *)
Inductive exn_kind :=
  | OSError
  | ValueError
  | InvalidTokenKind
  | KeyErrorKind
  | AttributeErrorKind.

Definition kind_of (e : exn) : exn_kind :=
  match e with
  | PermissionError _ | FileNotFoundError _ => OSError
  | InvalidToken => InvalidTokenKind
  | UnicodeDecodeError | JSONDecodeError => ValueError
  | KeyError _ => KeyErrorKind
  | AttributeError => AttributeErrorKind
  | ValueError_Fernet_key => ValueError
  | ValueError_Failed_to_load _ => ValueError
  end.

(** ** Library interfaces *)

(** [cryptography.fernet].  [Fernet key] is the constructor, which rejects
    a malformed key; [generate_key] and [encrypt] draw from the operating
    system's entropy (the [N] argument); [decrypt] is called without [ttl],
    so it does not depend on the clock, and answers [None] where the
    library raises [InvalidToken]. *)
Class FernetLib := {
  cipher : Type;
  Fernet : bytes → option cipher;
  generate_key : N → bytes;
  encrypt : cipher → N → bytes → bytes;
  decrypt : cipher → bytes → option bytes;
  generate_key_valid : ∀ r, is_Some (Fernet (generate_key r));
  decrypt_encrypt : ∀ c r p, decrypt c (encrypt c r p) = Some p;
}.

(** [json] and the UTF-8 codec.  [json_dumps v] is
    [json.dumps(v, indent=2)]; [json_loads], [bytes_decode] answer [None]
    where Python raises. *)
Class JsonLib := {
  json_dumps : pyval → str;
  json_loads : str → option pyval;
  str_encode : str → bytes;
  bytes_decode : bytes → option str;
  json_loads_dumps : ∀ v, json_loads (json_dumps v) = Some v;
  bytes_decode_encode : ∀ s, bytes_decode (str_encode s) = Some s;
}.

(** ** The filesystem *)

Record file := File { data : bytes; mode : N }.

(** Files by path, the paths on which an operation is refused, and the
    number of entropy draws made so far. *)
Record World := {
  files : gmap Path file;
  deny_read : gset Path;
  deny_write : gset Path;
  deny_unlink : gset Path;
  deny_chmod : gset Path;
  entropy : N;
}.

(** Mode of a newly created file (0o644) and the owner-only mode (0o600). *)
Definition default_mode : N := 420.
Definition owner_only : N := 384.

Definition set_files (f : gmap Path file) (w : World) : World :=
  {| files := f; deny_read := deny_read w; deny_write := deny_write w;
     deny_unlink := deny_unlink w; deny_chmod := deny_chmod w;
     entropy := entropy w |}.

Definition tick (w : World) : World :=
  {| files := files w; deny_read := deny_read w; deny_write := deny_write w;
     deny_unlink := deny_unlink w; deny_chmod := deny_chmod w;
     entropy := N.succ (entropy w) |}.

Definition file_exists (w : World) (p : Path) : bool :=
  bool_decide (is_Some (files w !! p)).

(** Writing keeps the mode of an existing file; a new file gets the
    default one. *)
Definition w_write (p : Path) (b : bytes) (w : World) : World :=
  let m := match files w !! p with
           | Some f => mode f
           | None => default_mode
           end in
  set_files (<[p := File b m]> (files w)) w.

Definition w_chmod (p : Path) (m : N) (w : World) : World :=
  match files w !! p with
  | Some f => set_files (<[p := File (data f) m]> (files w)) w
  | None => w
  end.

Definition w_unlink (p : Path) (w : World) : World :=
  set_files (delete p (files w)) w.

(** The content of a file, if it exists. *)
Definition file_data (w : World) (p : Path) : option bytes :=
  data <$> files w !! p.

(** The world after [try: os.chmod(p, 0o600) except Exception: pass]. *)
Definition w_try_chmod (p : Path) (w : World) : World :=
  if decide (p ∈ deny_chmod w) then w else w_chmod p owner_only w.

(** No method changes what the filesystem refuses. *)
Definition denials (w : World) : gset Path * gset Path * gset Path * gset Path :=
  (deny_read w, deny_write w, deny_unlink w, deny_chmod w).

(** A world with no file, where nothing is refused. *)
Definition empty_world : World :=
  {| files := ∅; deny_read := ∅; deny_write := ∅; deny_unlink := ∅;
     deny_chmod := ∅; entropy := 0 |}.

Section Manager.
Context `{FernetLib} `{JsonLib}.

(** ** The manager object *)

Record SecureConfigManager := {
  config_file : Path;
  master_key_file : Path;
  _cipher : option cipher;
}.

(** [__init__], with its default paths. *)
Definition init (config_file master_key_file : Path) : SecureConfigManager :=
  {| config_file := config_file; master_key_file := master_key_file;
     _cipher := None |}.

Definition default_config_file : Path := "config.encrypted".
Definition default_master_key_file : Path := ".master_key".

(** ** The monad: one manager instance in one world *)

Record state := State { self : SecureConfigManager; world : World }.

Definition M (A : Type) : Type := state → (exn + A) * state.

Definition ret {A} (x : A) : M A := λ st, (inr x, st).

(** Sequencing: an exception stops the computation and keeps the state
    reached so far (what was written stays written). *)
Definition bind {A B} (m : M A) (f : A → M B) : M B := λ st,
  match m st with
  | (inr x, st') => f x st'
  | (inl e, st') => (inl e, st')
  end.

Local Notation "x ← y ; z" := (bind y (λ x, z))
  (at level 20, y at level 100, z at level 200, only parsing).
Local Notation "x ;; z" := (bind x (λ _, z))
  (at level 100, z at level 200, only parsing, right associativity).

Definition raise {A} (e : exn) : M A := λ st, (inl e, st).

(** [try: body except Exception as e: handler(e)] *)
Definition try_except {A} (body : M A) (handler : exn → M A) : M A :=
  λ st,
    match body st with
    | (inr x, st') => (inr x, st')
    | (inl e, st') => handler e st'
    end.

(** [x] if [o] is [Some x], else raise [e]. *)
Definition or_raise {A} (o : option A) (e : exn) : M A :=
  match o with
  | Some x => ret x
  | None => raise e
  end.

(** *** Primitive operations *)

Definition get_self : M SecureConfigManager := λ st, (inr (self st), st).

Definition with_cipher (c : cipher) (m : SecureConfigManager)
  : SecureConfigManager :=
  {| config_file := config_file m; master_key_file := master_key_file m;
     _cipher := Some c |}.

Definition set_cipher (c : cipher) : M unit := λ st,
  (inr tt, State (with_cipher c (self st)) (world st)).

(** [Path.exists()] *)
Definition path_exists (p : Path) : M bool := λ st,
  (inr (file_exists (world st) p), st).

(** [with open(p, 'rb') as f: f.read()] *)
Definition read_bytes (p : Path) : M bytes := λ st,
  if decide (p ∈ deny_read (world st)) then (inl (PermissionError p), st)
  else match files (world st) !! p with
       | Some f => (inr (data f), st)
       | None => (inl (FileNotFoundError p), st)
       end.

(** [with open(p, 'wb') as f: f.write(b)] *)
Definition write_bytes (p : Path) (b : bytes) : M unit := λ st,
  if decide (p ∈ deny_write (world st)) then (inl (PermissionError p), st)
  else (inr tt, State (self st) (w_write p b (world st))).

(** [os.chmod(p, m)] *)
Definition chmod (p : Path) (m : N) : M unit := λ st,
  if decide (p ∈ deny_chmod (world st)) then (inl (PermissionError p), st)
  else if file_exists (world st) p
       then (inr tt, State (self st) (w_chmod p m (world st)))
       else (inl (FileNotFoundError p), st).

(** [Path.unlink()] *)
Definition unlink (p : Path) : M unit := λ st,
  if decide (p ∈ deny_unlink (world st)) then (inl (PermissionError p), st)
  else if file_exists (world st) p
       then (inr tt, State (self st) (w_unlink p (world st)))
       else (inl (FileNotFoundError p), st).

(** One draw from the operating system's entropy. *)
Definition urandom : M N := λ st,
  (inr (entropy (world st)), State (self st) (tick (world st))).

(** *** Methods of [SecureConfigManager] *)

Definition is_configured : M bool :=
  self ← get_self;
  c ← path_exists (config_file self);
  if c then path_exists (master_key_file self) else ret false.

Definition _get_or_create_master_key : M bytes :=
  self ← get_self;
  present ← path_exists (master_key_file self);
  if present then
    read_bytes (master_key_file self)
  else
    r ← urandom;
    let key := generate_key r in
    write_bytes (master_key_file self) key;;
    try_except (chmod (master_key_file self) owner_only) (λ _, ret tt);;
    ret key.

Definition _get_cipher : M cipher :=
  self ← get_self;
  match _cipher self with
  | None =>
      key ← _get_or_create_master_key;
      c ← or_raise (Fernet key) ValueError_Fernet_key;
      set_cipher c;;
      ret c
  | Some c => ret c
  end.

Definition save_config (config : Dict) : M unit :=
  cipher ← _get_cipher;
  let config_json := json_dumps (PDict config) in
  r ← urandom;
  let encrypted := encrypt cipher r (str_encode config_json) in
  self ← get_self;
  write_bytes (config_file self) encrypted;;
  try_except (chmod (config_file self) owner_only) (λ _, ret tt).

Definition load_config : M (option pyval) :=
  configured ← is_configured;
  if negb configured then ret None
  else
    try_except
      (cipher ← _get_cipher;
       self ← get_self;
       encrypted ← read_bytes (config_file self);
       decrypted ← or_raise (decrypt cipher encrypted) InvalidToken;
       text ← or_raise (bytes_decode decrypted) UnicodeDecodeError;
       config ← or_raise (json_loads text) JSONDecodeError;
       ret (Some config))
      (λ e, raise (ValueError_Failed_to_load e)).

(** [x or {}] on the result of [load_config]. *)
Definition or_empty (loaded : option pyval) : pyval :=
  match loaded with
  | Some v => if truthy v then v else PDict ∅
  | None => PDict ∅
  end.

(** [current.update(updates)]: only a dict has the method; the keys of
    [updates] win. *)
Definition dict_update (current : pyval) (updates : Dict) : M Dict :=
  match current with
  | PDict d => ret (updates ∪ d)
  | _ => raise AttributeError
  end.

Definition update_config (updates : Dict) : M unit :=
  loaded ← load_config;
  current ← dict_update (or_empty loaded) updates;
  save_config current.

Definition delete_config : M unit :=
  self ← get_self;
  c ← path_exists (config_file self);
  (if c then unlink (config_file self) else ret tt);;
  k ← path_exists (master_key_file self);
  if k then unlink (master_key_file self) else ret tt.

(** *** States of the key cache *)

(** The key file is where the manager expects it: either no cipher is
    cached yet, or the key file exists. *)
Definition key_file_live (st : state) : Prop :=
  _cipher (self st) = None
  ∨ file_exists (world st) (master_key_file (self st)) = true.

(** The cached cipher, if any, is the one the key file gives. *)
Definition key_cache_synced (st : state) : Prop :=
  ∀ c, _cipher (self st) = Some c →
       ∃ key, file_data (world st) (master_key_file (self st)) = Some key
              ∧ Fernet key = Some c.

(** A cipher is cached but its key file is gone. *)
Definition key_file_lost (st : state) : Prop :=
  is_Some (_cipher (self st))
  ∧ file_exists (world st) (master_key_file (self st)) = false
  ∧ config_file (self st) ≠ master_key_file (self st).

(** *** Worlds reached by the methods, and a few call sequences *)

(** The world after [_get_or_create_master_key] has created the key. *)
Definition key_created (st : state) : World :=
  let kf := master_key_file (self st) in
  w_try_chmod kf
    (w_write kf (generate_key (entropy (world st))) (tick (world st))).

(** The bytes [save_config] writes for [config] under cipher [c], with
    entropy draw [r]. *)
Definition blob_of (c : cipher) (r : N) (config : Dict) : bytes :=
  encrypt c r (str_encode (json_dumps (PDict config))).

(** The world after [save_config] has written the configuration. *)
Definition config_written (c : cipher) (config : Dict) (st : state) : World :=
  let cf := config_file (self st) in
  w_try_chmod cf
    (w_write cf (blob_of c (entropy (world st)) config) (tick (world st))).

(** A newly started application: the default paths, no file yet. *)
Definition st_init : state :=
  State (init default_config_file default_master_key_file) empty_world.

(** A second, freshly constructed manager on the same paths and files. *)
Definition fresh_instance (st : state) : state :=
  State (init (config_file (self st)) (master_key_file (self st)))
    (world st).

(** What [app.py] does on [/setup], [/reset-config], [/setup] with its
    one global manager. *)
Definition setup_reset_setup (first second : Dict) : M unit :=
  save_config first;;
  delete_config;;
  save_config second.

Definition setup_reset_update_update (first u1 u2 : Dict) : M unit :=
  save_config first;;
  delete_config;;
  update_config u1;;
  update_config u2.

End Manager.

(** ** The setup-data validator *)

(** [d[k]] *)
Definition subscript (d : Dict) (k : string) : exn + pyval :=
  match d !! k with
  | Some v => inr v
  | None => inl (KeyError k)
  end.

(** [v.startswith(prefix)]: only a [str] has the method. *)
Definition startswith (v : pyval) (prefix : string) : exn + bool :=
  match v with
  | PStr s => inr (String.prefix prefix s)
  | _ => inl AttributeError
  end.

(** [data.get(k) and not data[k].startswith(prefix)]: the right operand
    is evaluated only when the left one is truthy. *)
Definition and_not_startswith (data : Dict) (k prefix : string) : exn + bool :=
  if truthy (dict_get data k) then
    match subscript data k with
    | inl e => inl e
    | inr v =>
        match startswith v prefix with
        | inl e => inl e
        | inr b => inr (negb b)
        end
    end
  else inr false.

Definition validate_setup_data (data : Dict) : exn + (bool * option string) :=
  if negb (truthy (dict_get data "llm_provider")) then
    inr (false, Some "LLM provider is required")
  else if eq_str (dict_get data "llm_provider") "groq"
          && negb (truthy (dict_get data "groq_api_key")) then
    inr (false, Some "Groq API key is required when using Groq")
  else if eq_str (dict_get data "llm_provider") "openai"
          && negb (truthy (dict_get data "openai_api_key")) then
    inr (false, Some "OpenAI API key is required when using OpenAI")
  else if negb (truthy (dict_get data "openai_api_key")) then
    inr (false, Some "OpenAI API key is required for embeddings")
  else
    match and_not_startswith data "openai_api_key" "sk-" with
    | inl e => inl e
    | inr true =>
        inr (false,
             Some "OpenAI API key format appears invalid (should start with 'sk-')")
    | inr false =>
        match and_not_startswith data "groq_api_key" "gsk_" with
        | inl e => inl e
        | inr true =>
            inr (false,
                 Some "Groq API key format appears invalid (should start with 'gsk_')")
        | inr false => inr (true, None)
        end
    end.

(** *** The six rules, as the specification lists them

    A rule either passes ([None]) or fails with a reason.  A field is
    "present" when the mapping gives it a non-empty value, in rules 5 and 6
    as in rules 1 to 4.  The prefix test of rules 5 and 6 is the string
    method, so on a value that is not a string it raises. *)
Definition rule := Dict → exn + option string.

Definition present (data : Dict) (k : string) : bool :=
  truthy (dict_get data k).

Definition must_start_with (v : pyval) (prefix reason : string)
  : exn + option string :=
  match v with
  | PStr s => inr (if String.prefix prefix s then None else Some reason)
  | _ => inl AttributeError
  end.

Definition rule1 : rule := λ data,
  inr (if present data "llm_provider" then None
       else Some "LLM provider is required").

Definition rule2 : rule := λ data,
  inr (if eq_str (dict_get data "llm_provider") "groq"
       then if present data "groq_api_key" then None
            else Some "Groq API key is required when using Groq"
       else None).

Definition rule3 : rule := λ data,
  inr (if eq_str (dict_get data "llm_provider") "openai"
       then if present data "openai_api_key" then None
            else Some "OpenAI API key is required when using OpenAI"
       else None).

Definition rule4 : rule := λ data,
  inr (if present data "openai_api_key" then None
       else Some "OpenAI API key is required for embeddings").

Definition rule5 : rule := λ data,
  if present data "openai_api_key" then
    must_start_with (dict_get data "openai_api_key") "sk-"
      "OpenAI API key format appears invalid (should start with 'sk-')"
  else inr None.

Definition rule6 : rule := λ data,
  if present data "groq_api_key" then
    must_start_with (dict_get data "groq_api_key") "gsk_"
      "Groq API key format appears invalid (should start with 'gsk_')"
  else inr None.

(** Evaluate the rules in order; the first failure is the answer. *)
Fixpoint first_failure (rules : list rule) (data : Dict)
  : exn + (bool * option string) :=
  match rules with
  | [] => inr (true, None)
  | r :: rules' =>
      match r data with
      | inl e => inl e
      | inr (Some reason) => inr (false, Some reason)
      | inr None => first_failure rules' data
      end
  end.

Definition rules_in_order : list rule :=
  [rule1; rule2; rule3; rule4; rule5; rule6].


(** *** Notions used to state the validator's behaviour *)

(** The value of field [k] is a string that starts with [prefix]. *)
Definition field_starts_with (d : Dict) (k prefix : string) : Prop :=
  ∃ s, d !! k = Some (PStr s) ∧ String.prefix prefix s = true.

(** The messages of the validator. *)
Definition validator_messages : list string :=
  [ "LLM provider is required";
    "Groq API key is required when using Groq";
    "OpenAI API key is required when using OpenAI";
    "OpenAI API key is required for embeddings";
    "OpenAI API key format appears invalid (should start with 'sk-')";
    "Groq API key format appears invalid (should start with 'gsk_')" ].

(** ** The application ([app.py]) *)

(** What a handler returns.  The body of a JSON answer is an error with a
    fixed or a validator's message, an error with the text of the exception
    caught, or a status with its message. *)
Inductive app_exn :=
  | Raised (e : exn)
  | BadRequest
  | TypeError_environ
  | ValueError_environ
  | AgentError.

Inductive payload :=
  | ErrorMessage (msg : option string)
  | ErrorRaised (e : app_exn)
  | StatusMessage (status message : string).

Inductive response :=
  | Redirect (endpoint : string)
  | Render (template : string)
  | Json (body : payload) (code : nat).

(** A [GET] route also answers [HEAD], which the handler tells from
    [GET] like any other method. *)
Inductive http_method := GET | POST | HEAD.

(** The keyword arguments given to [MovieAgentConfig]. *)
Record MovieAgentConfig := {
  llm_provider : pyval;
  llm_model : pyval;
  enable_vision : pyval;
  enable_memory : pyval;
  memory_max_turns : pyval;
  faiss_index_path : pyval;
  warmup_on_start : bool;
  verbose : bool;
}.

(** [d.get(k, default)] *)
Definition dict_get_default (d : Dict) (k : string) (dflt : pyval) : pyval :=
  default dflt (d !! k).

Definition agent_config (config_data : Dict) : MovieAgentConfig :=
  {| llm_provider := dict_get_default config_data "llm_provider" (PStr "openai");
     llm_model := dict_get_default config_data "llm_model" (PStr "gpt-4o-mini");
     enable_vision := dict_get_default config_data "enable_vision" (PBool true);
     enable_memory := dict_get_default config_data "enable_memory" (PBool true);
     memory_max_turns := dict_get_default config_data "memory_max_turns" (PInt 10);
     faiss_index_path := dict_get config_data "faiss_index_path";
     warmup_on_start := false;
     verbose := true |}.

(** [validate_setup_data(data)] on whatever [request.get_json()] gave: the
    first [data.get] fails on a value that is not a dict. *)
Definition validate_request (data : pyval) : exn + (bool * option string) :=
  match data with
  | PDict d => validate_setup_data d
  | _ => inl AttributeError
  end.

(** The poster history kept in the session by [poster]: the new state is
    stored, appended to the history list (in place, so the session sees
    it), and the list is cut to its last three entries. *)
Definition record_poster (poster_state : pyval) (session : Dict)
  : (exn + unit) * Dict :=
  let session := <["poster_state" := poster_state]> session in
  let session := match session !! "poster_history" with
                 | None => <["poster_history" := PList []]> session
                 | Some _ => session
                 end in
  match session !! "poster_history" with
  | Some (PList poster_history) =>
      let poster_history := poster_history ++ [poster_state] in
      let session := <["poster_history" := PList poster_history]> session in
      if 3 <? length poster_history
      then (inr tt,
            <["poster_history" :=
                PList (drop (length poster_history - 3) poster_history)]>
              session)
      else (inr tt, session)
  | Some _ => (inl AttributeError, session)
  | None => (inl (KeyError "poster_history"), session)
  end.

(** The agent library is outside the repository: [Agent] is a running
    [MovieAgentApp], and [start_agent config environ] is
    [MovieAgentApp(MovieAgentConfig(...))] followed by [initialize()], which
    reads the environment; [None] where any of them raises.
    [environ_accepts s] tells whether [os.environ] takes [s] as a value. *)
Class AgentLib := {
  Agent : Type;
  start_agent : MovieAgentConfig → gmap string string → option Agent;
  environ_accepts : string → bool;
}.

Section App.
Context `{FernetLib} `{JsonLib} `{AgentLib}.

(** The module's globals, and the process environment. *)
Record app_state := {
  config_manager : state;
  agent_app : option Agent;
  environ : gmap string string;
}.

Definition App (X : Type) : Type := app_state → (app_exn + X) * app_state.

Definition app_ret {X} (x : X) : App X := λ a, (inr x, a).

Definition app_bind {X Y} (m : App X) (f : X → App Y) : App Y := λ a,
  match m a with
  | (inr x, a') => f x a'
  | (inl e, a') => (inl e, a')
  end.

Local Notation "x ← y ; z" := (app_bind y (λ x, z))
  (at level 20, y at level 100, z at level 200, only parsing).
Local Notation "x ;; z" := (app_bind x (λ _, z))
  (at level 100, z at level 200, only parsing, right associativity).

Definition app_raise {X} (e : app_exn) : App X := λ a, (inl e, a).

(** [try: body except Exception as e: handler(e)] *)
Definition app_try {X} (body : App X) (handler : app_exn → App X) : App X :=
  λ a,
    match body a with
    | (inr x, a') => (inr x, a')
    | (inl e, a') => handler e a'
    end.

(** A call on the global [config_manager]. *)
Definition on_manager {X} (m : M X) : App X := λ a,
  let '(r, st) := m (config_manager a) in
  let a' := {| config_manager := st; agent_app := agent_app a;
               environ := environ a |} in
  match r with
  | inr x => (inr x, a')
  | inl e => (inl (Raised e), a')
  end.

Definition from_result {X} (r : exn + X) : App X :=
  match r with
  | inr x => app_ret x
  | inl e => app_raise (Raised e)
  end.

Definition get_agent_app : App (option Agent) := λ a, (inr (agent_app a), a).

Definition set_agent_app (o : option Agent) : App unit := λ a,
  (inr tt, {| config_manager := config_manager a; agent_app := o;
              environ := environ a |}).

(** [os.environ[k] = v]: the value must be a [str] the environment takes. *)
Definition setenv (k : string) (v : pyval) : App unit := λ a,
  match v with
  | PStr s =>
      if environ_accepts s
      then (inr tt, {| config_manager := config_manager a;
                       agent_app := agent_app a;
                       environ := <[k := s]> (environ a) |})
      else (inl ValueError_environ, a)
  | _ => (inl TypeError_environ, a)
  end.

(** [config_data.get(...)] needs a dict. *)
Definition as_dict (config_data : option pyval) : App Dict :=
  match config_data with
  | Some (PDict d) => app_ret d
  | _ => app_raise (Raised AttributeError)
  end.

(** The environment variables [_initialize_agent_from_config] sets. *)
Definition export_keys (config_data : Dict) : App unit :=
  let llm_provider := dict_get_default config_data "llm_provider" (PStr "groq") in
  (if eq_str llm_provider "groq" then
     if truthy (dict_get config_data "groq_api_key")
     then setenv "GROQ_API_KEY" (dict_get config_data "groq_api_key")
     else app_ret tt
   else if eq_str llm_provider "openai" then
     if truthy (dict_get config_data "openai_llm_api_key")
     then setenv "OPENAI_API_KEY" (dict_get config_data "openai_llm_api_key")
     else if truthy (dict_get config_data "openai_api_key")
     then setenv "OPENAI_API_KEY" (dict_get config_data "openai_api_key")
     else app_ret tt
   else app_ret tt);;
  if truthy (dict_get config_data "openai_api_key")
  then setenv "OPENAI_API_KEY" (dict_get config_data "openai_api_key")
  else app_ret tt.

Definition start (config : MovieAgentConfig) : App Agent := λ a,
  match start_agent config (environ a) with
  | Some agent => (inr agent, a)
  | None => (inl AgentError, a)
  end.

Definition _initialize_agent_from_config : App unit :=
  running ← get_agent_app;
  match running with
  | Some _ => app_ret tt
  | None =>
      configured ← on_manager is_configured;
      if negb configured then app_ret tt
      else
        app_try
          (config_data ← on_manager load_config;
           d ← as_dict config_data;
           export_keys d;;
           agent ← start (agent_config d);
           set_agent_app (Some agent))
          (λ _, set_agent_app None)
  end.

Definition index : App response :=
  configured ← on_manager is_configured;
  if negb configured then app_ret (Redirect "setup")
  else app_ret (Render "index.html").

(** [request_json] is what [request.get_json()] gives, [None] where it
    raises. *)
Definition setup (method : http_method) (request_json : option pyval)
  : App response :=
  match method with
  | GET =>
      configured ← on_manager is_configured;
      if configured then app_ret (Redirect "index")
      else app_ret (Render "setup.html")
  | POST | HEAD =>
      app_try
        (data ← match request_json with
                | Some data => app_ret data
                | None => app_raise BadRequest
                end;
         if negb (truthy data)
         then app_ret (Json (ErrorMessage (Some "No JSON data provided")) 400)
         else
           answer ← from_result (validate_request data);
           let '(is_valid, error_message) := answer in
           if negb is_valid
           then app_ret (Json (ErrorMessage error_message) 400)
           else
             d ← as_dict (Some data);
             on_manager (save_config d);;
             _initialize_agent_from_config;;
             app_ret (Json (StatusMessage "success" "Configuration saved") 200))
        (λ e, app_ret (Json (ErrorRaised e) 500))
  end.

Definition reset_config : App response :=
  app_try
    (on_manager delete_config;;
     app_ret (Json (StatusMessage "success" "Configuration reset") 200))
    (λ e, app_ret (Json (ErrorRaised e) 500)).

(** The first lines of [chat] and of [poster]: the answer they return
    early, or the agent they go on with. *)
Definition agent_gate : App (response + Agent) :=
  configured ← on_manager is_configured;
  if negb configured
  then app_ret (inl (Json (ErrorMessage
         (Some "Service not configured. Please complete setup first.")) 503))
  else
    _initialize_agent_from_config;;
    running ← get_agent_app;
    match running with
    | None => app_ret (inl (Json (ErrorMessage
                (Some "Agent initialization failed. Please check configuration."))
                500))
    | Some agent => app_ret (inr agent)
    end.

(** Whether both files of the global manager exist. *)
Definition app_configured (a : app_state) : bool :=
  file_exists (world (config_manager a)) (config_file (self (config_manager a)))
  && file_exists (world (config_manager a))
       (master_key_file (self (config_manager a))).

End App.

(** ** The path resolver ([path_resolver.py]) *)

(** A path is the list of the components of an absolute, normalized path;
    [pathlib] and [os.path] agree on it. *)
Abbreviation path := (list string) (only parsing).

(** [p.parent], [os.path.dirname(p)]: the root is its own parent. *)
Definition parent (p : path) : path := removelast p.

(** [p / "movie-agent-service" / "src"] *)
Definition service_src (p : path) : path :=
  p ++ ["movie-agent-service"; "src"].

(** [str(p)] *)
Definition path_str (p : path) : string :=
  String.append "/" (String.concat "/" p).

(** What the resolver asks of the platform: [Path(s).resolve()] and
    [p.resolve()], which may raise, and [os.path.abspath(s)], which does
    not look at the filesystem. *)
Class PathLib := {
  resolve_file : string → exn + path;
  resolve_path : path → exn + path;
  abspath : string → path;
}.

Record ServicePathResolver := {
  _base_file : string;
  _resolved_path : option path;
}.

Definition resolver_init (base_file : string) : ServicePathResolver :=
  {| _base_file := base_file; _resolved_path := None |}.

Section Resolver.
Context `{PathLib}.

(** The directories that exist. *)
Implicit Type fs : gset path.

Definition cache (p : path) (r : ServicePathResolver) : ServicePathResolver :=
  {| _base_file := _base_file r; _resolved_path := Some p |}.

(** The body of the [try] block of [resolve]. *)
Definition resolve_pathlib fs (r : ServicePathResolver)
  : (exn + option path) * ServicePathResolver :=
  match resolve_file (_base_file r) with
  | inl e => (inl e, r)
  | inr current_file =>
      let service_path := service_src (parent (parent current_file)) in
      let service_path :=
        if negb (bool_decide (service_path ∈ fs))
        then service_src (parent current_file)
        else service_path in
      if bool_decide (service_path ∈ fs) then
        match resolve_path service_path with
        | inl e => (inl e, r)
        | inr p => (inr (Some p), cache p r)
        end
      else (inr None, r)
  end.

(** The body of its [except (OSError, ValueError)] block. *)
Definition resolve_os_path fs (r : ServicePathResolver)
  : option path * ServicePathResolver :=
  let base_dir := parent (abspath (_base_file r)) in
  let service_path := service_src (parent base_dir) in
  let service_path :=
    if negb (bool_decide (service_path ∈ fs))
    then service_src base_dir
    else service_path in
  if bool_decide (service_path ∈ fs)
  then (Some service_path, cache service_path r)
  else (None, r).

Definition resolve fs (r : ServicePathResolver)
  : (exn + option path) * ServicePathResolver :=
  match _resolved_path r with
  | Some p => (inr (Some p), r)
  | None =>
      match resolve_pathlib fs r with
      | (inr found, r') => (inr found, r')
      | (inl e, r') =>
          match kind_of e with
          | OSError | ValueError =>
              let '(found, r'') := resolve_os_path fs r' in
              (inr found, r'')
          | _ => (inl e, r')
          end
      end
  end.

(** [add_to_sys_path], on the list [sys.path]. *)
Definition add_to_sys_path fs (r : ServicePathResolver) (sys_path : list string)
  : (exn + bool) * ServicePathResolver * list string :=
  match resolve fs r with
  | (inr (Some resolved), r') => (inr true, r', path_str resolved :: sys_path)
  | (inr None, r') => (inr false, r', sys_path)
  | (inl e, r') => (inl e, r', sys_path)
  end.

End Resolver.

(** ** A small executable implementation of the library interfaces

    Enough of a cipher and of a codec to run the manager on concrete
    inputs: a one-byte pad with a key-dependent tag in front, and a codec
    that writes a value as the binary digits of its tree encoding. *)
Definition xor_ascii (k a : ascii) : ascii :=
  match k, a with
  | Ascii k0 k1 k2 k3 k4 k5 k6 k7, Ascii a0 a1 a2 a3 a4 a5 a6 a7 =>
      Ascii (xorb k0 a0) (xorb k1 a1) (xorb k2 a2) (xorb k3 a3)
        (xorb k4 a4) (xorb k5 a5) (xorb k6 a6) (xorb k7 a7)
  end.

Fixpoint xor_string (k : ascii) (s : string) : string :=
  match s with
  | EmptyString => EmptyString
  | String a s' => String (xor_ascii k a) (xor_string k s')
  end.

Fixpoint pos_digits (p : positive) : string :=
  match p with
  | xH => EmptyString
  | xO p => String "0"%char (pos_digits p)
  | xI p => String "1"%char (pos_digits p)
  end.

Fixpoint digits_pos (s : string) : option positive :=
  match s with
  | EmptyString => Some xH
  | String c s =>
      if Ascii.eqb c "0" then xO <$> digits_pos s
      else if Ascii.eqb c "1" then xI <$> digits_pos s
      else None
  end.

(** A key is valid when it starts with [k]; its second byte is the pad. *)
Definition sample_Fernet (key : bytes) : option string :=
  match key with
  | String c _ => if Ascii.eqb c "k" then Some key else None
  | EmptyString => None
  end.

Definition sample_generate_key (r : N) : bytes :=
  String "k"%char (String "5"%char (pos_digits (N.succ_pos r))).

Definition pad_of (key : string) : ascii :=
  match key with
  | String _ (String a _) => a
  | _ => "x"%char
  end.

Definition sample_encrypt (key : string) (r : N) (plain : bytes) : bytes :=
  String (pad_of key) (xor_string (pad_of key) plain).

Definition sample_decrypt (key : string) (token : bytes) : option bytes :=
  match token with
  | String tag body =>
      if Ascii.eqb tag (pad_of key) then Some (xor_string (pad_of key) body)
      else None
  | EmptyString => None
  end.

Definition leaf : Type := bool + Z + string.

Fixpoint to_tree (v : pyval) : gen_tree leaf :=
  match v with
  | PNone => GenNode 0 []
  | PBool b => GenLeaf (inl (inl b))
  | PInt n => GenLeaf (inl (inr n))
  | PStr s => GenLeaf (inr s)
  | PList l => GenNode 1 (to_tree <$> l)
  | PDict d =>
      GenNode 2
        ((λ kv : string * gen_tree leaf,
            GenNode 3 [GenLeaf (inr kv.1); kv.2])
           <$> map_to_list (to_tree <$> d))
  end.

Fixpoint of_tree (t : gen_tree leaf) : pyval :=
  match t with
  | GenLeaf (inl (inl b)) => PBool b
  | GenLeaf (inl (inr n)) => PInt n
  | GenLeaf (inr s) => PStr s
  | GenNode 1 ts => PList (of_tree <$> ts)
  | GenNode 2 ts =>
      PDict (list_to_map
               ((λ t, match t with
                      | GenNode _ [GenLeaf (inr k); t'] => (k, of_tree t')
                      | _ => (EmptyString, PNone)
                      end) <$> ts))
  | GenNode _ _ => PNone
  end.

Fixpoint pysize (v : pyval) : nat :=
  match v with
  | PList l => S (sum_list (pysize <$> l))
  | PDict d => S (sum_list ((map_to_list (pysize <$> d)).*2))
  | _ => 1
  end.

Definition sample_dumps (v : pyval) : str :=
  pos_digits (encode (to_tree v)).

Definition sample_loads (s : str) : option pyval :=
  p ← digits_pos s; t ← decode p; Some (of_tree t).


(** * Proofs *)

(** ** The filesystem *)

Section World.
Implicit Types (w : World) (p q : Path).

Lemma file_exists_data w p : file_exists w p = bool_decide (is_Some (file_data w p)).
Proof. unfold file_exists, file_data. apply bool_decide_ext. by rewrite fmap_is_Some. Qed.

Lemma file_exists_true w p : file_exists w p = true ↔ is_Some (files w !! p).
Proof. unfold file_exists. by rewrite bool_decide_eq_true. Qed.

Lemma file_exists_false w p : file_exists w p = false ↔ files w !! p = None.
Proof. unfold file_exists. by rewrite bool_decide_eq_false, eq_None_not_Some. Qed.

Lemma file_data_w_write w p b q :
  file_data (w_write p b w) q = if decide (p = q) then Some b else file_data w q.
Proof.
  unfold file_data, w_write; simpl. rewrite lookup_insert. by case_decide.
Qed.

Lemma file_data_w_chmod w p m q : file_data (w_chmod p m w) q = file_data w q.
Proof.
  unfold file_data, w_chmod. destruct (files w !! p) as [f|] eqn:Hp; [|done].
  simpl. rewrite lookup_insert. case_decide; [|done]. subst. by rewrite Hp.
Qed.

Lemma file_data_w_try_chmod w p q : file_data (w_try_chmod p w) q = file_data w q.
Proof. unfold w_try_chmod. case_decide; [done|]. apply file_data_w_chmod. Qed.

Lemma file_data_w_unlink w p q :
  file_data (w_unlink p w) q = if decide (p = q) then None else file_data w q.
Proof. unfold file_data, w_unlink; simpl. rewrite lookup_delete. by case_decide. Qed.

Lemma file_data_tick w p : file_data (tick w) p = file_data w p.
Proof. done. Qed.
End World.

(** ** The methods, path by path *)

Section ManagerLemmas.
Context `{FernetLib} `{JsonLib}.
Implicit Types (st : state) (c : cipher) (m : Dict).

Lemma bind_ok {A B} (x : M A) (f : A → M B) st a st' :
  x st = (inr a, st') → bind x f st = f a st'.
Proof. unfold bind. by intros ->. Qed.

Lemma bind_raise {A B} (x : M A) (f : A → M B) st e st' :
  x st = (inl e, st') → bind x f st = (inl e, st').
Proof. unfold bind. by intros ->. Qed.

Lemma try_chmod st p :
  try_except (chmod p owner_only) (λ _, ret tt) st
  = (inr tt, State (self st) (w_try_chmod p (world st))).
Proof.
  unfold try_except, chmod, w_try_chmod, ret.
  destruct st as [s w]; simpl.
  case_decide; [done|].
  destruct (file_exists w p) eqn:Hp; [done|].
  apply file_exists_false in Hp. unfold w_chmod. by rewrite Hp.
Qed.

Lemma is_configured_eq st :
  is_configured st
  = (inr (file_exists (world st) (config_file (self st))
          && file_exists (world st) (master_key_file (self st))), st).
Proof.
  unfold is_configured, bind, get_self, path_exists, ret.
  by destruct (file_exists (world st) (config_file (self st))).
Qed.

(** [_get_cipher] *)
Lemma get_cipher_cached st c :
  _cipher (self st) = Some c → _get_cipher st = (inr c, st).
Proof. intros Hc. unfold _get_cipher, bind, get_self, ret. by rewrite Hc. Qed.

Lemma get_cipher_create st :
  _cipher (self st) = None →
  file_exists (world st) (master_key_file (self st)) = false →
  master_key_file (self st) ∉ deny_write (world st) →
  ∃ c, Fernet (generate_key (entropy (world st))) = Some c
       ∧ _get_cipher st = (inr c, State (with_cipher c (self st)) (key_created st)).
Proof.
  intros Hc Hk Hw.
  destruct (generate_key_valid (entropy (world st))) as [c Hf].
  exists c. split; [done|].
  unfold _get_cipher, bind at 1, get_self. rewrite Hc.
  unfold _get_or_create_master_key, bind, get_self, path_exists, urandom, write_bytes.
  rewrite Hk. simpl. rewrite decide_False by done.
  rewrite try_chmod. simpl. unfold ret. rewrite Hf. done.
Qed.

Lemma get_cipher_read st f :
  _cipher (self st) = None →
  files (world st) !! master_key_file (self st) = Some f →
  master_key_file (self st) ∉ deny_read (world st) →
  _get_cipher st
  = match Fernet (data f) with
    | Some c => (inr c, State (with_cipher c (self st)) (world st))
    | None => (inl ValueError_Fernet_key, st)
    end.
Proof.
  intros Hc Hk Hr.
  unfold _get_cipher, bind at 1, get_self. rewrite Hc.
  unfold _get_or_create_master_key, bind, get_self, path_exists, read_bytes.
  rewrite (proj2 (file_exists_true _ _)) by (by rewrite Hk).
  rewrite decide_False by done. rewrite Hk.
  by destruct (Fernet (data f)).
Qed.

Lemma get_cipher_inv st c st' :
  _get_cipher st = (inr c, st') →
  self st' = with_cipher c (self st)
  ∧ ((_cipher (self st) = Some c ∧ world st' = world st)
     ∨ (_cipher (self st) = None
        ∧ (∃ f, files (world st) !! master_key_file (self st) = Some f
                ∧ Fernet (data f) = Some c)
        ∧ world st' = world st)
     ∨ (_cipher (self st) = None
        ∧ files (world st) !! master_key_file (self st) = None
        ∧ Fernet (generate_key (entropy (world st))) = Some c
        ∧ world st' = key_created st)).
Proof.
  intros Hg.
  destruct (_cipher (self st)) as [c0|] eqn:Hc.
  - rewrite (get_cipher_cached _ _ Hc) in Hg. simplify_eq.
    split; [|by left]. destruct st' as [[] ?]; simpl in *. by subst.
  - destruct (files (world st) !! master_key_file (self st)) as [f|] eqn:Hk.
    + destruct (decide (master_key_file (self st) ∈ deny_read (world st))) as [Hr|Hr].
      * exfalso. revert Hg.
        unfold _get_cipher, bind at 1, get_self. rewrite Hc.
        unfold _get_or_create_master_key, bind, get_self, path_exists, read_bytes.
        rewrite (proj2 (file_exists_true _ _)) by (by rewrite Hk).
        by rewrite decide_True by done.
      * rewrite (get_cipher_read _ _ Hc Hk Hr) in Hg.
        destruct (Fernet (data f)) as [c1|] eqn:Hf; simplify_eq.
        split; [done|]. right; left. eauto.
    + destruct (decide (master_key_file (self st) ∈ deny_write (world st))) as [Hw|Hw].
      * exfalso. revert Hg.
        unfold _get_cipher, bind at 1, get_self. rewrite Hc.
        unfold _get_or_create_master_key, bind, get_self, path_exists, urandom, write_bytes.
        rewrite (proj2 (file_exists_false _ _)) by done. simpl.
        by rewrite decide_True by done.
      * destruct (get_cipher_create st Hc) as (c1 & Hf & Hg'); [by apply file_exists_false|done|].
        rewrite Hg' in Hg. simplify_eq. split; [done|]. right; right. eauto.
Qed.

(** [save_config] *)
Lemma save_config_eq st m :
  save_config m st
  = match _get_cipher st with
    | (inl e, st1) => (inl e, st1)
    | (inr c, st1) =>
        if decide (config_file (self st1) ∈ deny_write (world st1))
        then (inl (PermissionError (config_file (self st1))),
              State (self st1) (tick (world st1)))
        else (inr tt, State (self st1) (config_written c m st1))
    end.
Proof.
  unfold save_config, bind at 1.
  destruct (_get_cipher st) as [[e|c] st1]; [done|].
  unfold bind, urandom, get_self, write_bytes. simpl.
  case_decide; [done|]. by rewrite try_chmod.
Qed.

Lemma read_bytes_state p st : (read_bytes p st).2 = st.
Proof. unfold read_bytes. by repeat case_match. Qed.

(** [load_config] *)
Lemma load_config_not_configured st :
  file_exists (world st) (config_file (self st))
  && file_exists (world st) (master_key_file (self st)) = false →
  load_config st = (inr None, st).
Proof.
  intros Hc. unfold load_config, bind at 1. rewrite is_configured_eq, Hc. done.
Qed.

Lemma load_config_configured st :
  file_exists (world st) (config_file (self st))
  && file_exists (world st) (master_key_file (self st)) = true →
  load_config st
  = match _get_cipher st with
    | (inl e, st1) => (inl (ValueError_Failed_to_load e), st1)
    | (inr c, st1) =>
        match read_bytes (config_file (self st1)) st1 with
        | (inl e, _) => (inl (ValueError_Failed_to_load e), st1)
        | (inr blob, _) =>
            match decrypt c blob with
            | None => (inl (ValueError_Failed_to_load InvalidToken), st1)
            | Some p =>
                match bytes_decode p with
                | None => (inl (ValueError_Failed_to_load UnicodeDecodeError), st1)
                | Some text =>
                    match json_loads text with
                    | None => (inl (ValueError_Failed_to_load JSONDecodeError), st1)
                    | Some v => (inr (Some v), st1)
                    end
                end
            end
        end
    end.
Proof.
  intros Hc. unfold load_config, bind at 1. rewrite is_configured_eq, Hc. simpl.
  unfold try_except, bind at 1.
  destruct (_get_cipher st) as [[e|c] st1]; [done|].
  unfold bind at 1, get_self. unfold bind at 1.
  pose proof (read_bytes_state (config_file (self st1)) st1) as Hst.
  destruct (read_bytes (config_file (self st1)) st1) as [[e|blob] st2];
    simpl in Hst; subst st2; [done|].
  unfold bind, or_raise, ret, raise.
  destruct (decrypt c blob) as [p|]; [|done].
  destruct (bytes_decode p) as [text|]; [|done].
  by destruct (json_loads text).
Qed.

Lemma read_bytes_ok st p b :
  p ∉ deny_read (world st) → file_data (world st) p = Some b →
  read_bytes p st = (inr b, st).
Proof.
  intros Hr Hd. unfold read_bytes. rewrite decide_False by done.
  unfold file_data in Hd. destruct (files (world st) !! p); by simplify_eq/=.
Qed.

(** [delete_config] *)
Lemma unlink_existing p st :
  file_exists (world st) p = true →
  unlink p st
  = if decide (p ∈ deny_unlink (world st)) then (inl (PermissionError p), st)
    else (inr tt, State (self st) (w_unlink p (world st))).
Proof. intros Hp. unfold unlink. by rewrite Hp. Qed.

Lemma w_unlink_absent p w : file_exists w p = false → w_unlink p w = w.
Proof.
  intros Hp%file_exists_false. destruct w. unfold w_unlink, set_files; simpl in *.
  f_equal. by apply delete_id.
Qed.

Lemma delete_config_inv st st' :
  delete_config st = (inr tt, st') →
  self st' = self st
  ∧ world st' = w_unlink (master_key_file (self st))
                  (w_unlink (config_file (self st)) (world st)).
Proof.
  unfold delete_config, bind, get_self, path_exists, ret.
  destruct (file_exists (world st) (config_file (self st))) eqn:Hc.
  - rewrite (unlink_existing _ _ Hc). case_decide; [done|]. simpl.
    destruct (file_exists _ (master_key_file (self st))) eqn:Hk.
    + rewrite unlink_existing by done. simpl.
      case_decide; [done|]. intros; by simplify_eq.
    + intros; simplify_eq. by rewrite (w_unlink_absent _ _ Hk).
  - rewrite (w_unlink_absent _ _ Hc).
    destruct (file_exists _ (master_key_file (self st))) eqn:Hk.
    + rewrite unlink_existing by done.
      case_decide; [done|]. intros; by simplify_eq.
    + intros; simplify_eq. by rewrite (w_unlink_absent _ _ Hk).
Qed.

Lemma delete_config_permitted st :
  config_file (self st) ∉ deny_unlink (world st) →
  master_key_file (self st) ∉ deny_unlink (world st) →
  delete_config st
  = (inr tt, State (self st)
               (w_unlink (master_key_file (self st))
                  (w_unlink (config_file (self st)) (world st)))).
Proof.
  intros Hdc Hdk.
  unfold delete_config, bind, get_self, path_exists, ret.
  destruct (file_exists (world st) (config_file (self st))) eqn:Hc.
  - rewrite (unlink_existing _ _ Hc), decide_False by done. simpl.
    destruct (file_exists _ (master_key_file (self st))) eqn:Hk.
    + rewrite unlink_existing by done. simpl. by rewrite decide_False by done.
    + by rewrite (w_unlink_absent _ _ Hk).
  - rewrite (w_unlink_absent _ _ Hc).
    destruct (file_exists _ (master_key_file (self st))) eqn:Hk.
    + rewrite unlink_existing by done. by rewrite decide_False by done.
    + rewrite (w_unlink_absent _ _ Hk). by destruct st.
Qed.

Lemma delete_config_absent st :
  file_exists (world st) (config_file (self st)) = false →
  file_exists (world st) (master_key_file (self st)) = false →
  delete_config st = (inr tt, st).
Proof.
  intros Hc Hk. unfold delete_config, bind, get_self, path_exists, ret.
  by rewrite Hc, Hk.
Qed.
End ManagerLemmas.

Section Denials.
Implicit Types (w : World) (p q : Path).

Lemma denials_w_write w p b : denials (w_write p b w) = denials w.
Proof. done. Qed.

Lemma denials_w_unlink w p : denials (w_unlink p w) = denials w.
Proof. done. Qed.

Lemma denials_tick w : denials (tick w) = denials w.
Proof. done. Qed.

Lemma denials_w_chmod w p m : denials (w_chmod p m w) = denials w.
Proof. unfold w_chmod. by destruct (files w !! p). Qed.

Lemma denials_w_try_chmod w p : denials (w_try_chmod p w) = denials w.
Proof. unfold w_try_chmod. case_decide; [done|]. apply denials_w_chmod. Qed.

Lemma denials_read w w' : denials w' = denials w → deny_read w' = deny_read w.
Proof. unfold denials. by intros [=]. Qed.

Lemma denials_write w w' : denials w' = denials w → deny_write w' = deny_write w.
Proof. unfold denials. by intros [=]. Qed.

Lemma denials_unlink w w' :
  denials w' = denials w → deny_unlink w' = deny_unlink w.
Proof. unfold denials. by intros [=]. Qed.

Lemma file_exists_Some w p b : file_data w p = Some b → file_exists w p = true.
Proof. intros Hd. rewrite file_exists_data, Hd. by apply bool_decide_eq_true. Qed.

Lemma file_exists_None w p : file_data w p = None → file_exists w p = false.
Proof. intros Hd. rewrite file_exists_data, Hd. apply bool_decide_eq_false. by intros []. Qed.

Lemma file_exists_is_Some w p : file_exists w p = true → is_Some (file_data w p).
Proof. rewrite file_exists_data. by intros ?%bool_decide_eq_true. Qed.
End Denials.

(** ** Saving, loading, updating *)

Section ManagerTheorems.
Context `{FernetLib} `{JsonLib}.
Implicit Types (st : state) (c : cipher) (m : Dict).

Lemma file_data_key_created st q :
  file_data (key_created st) q
  = if decide (master_key_file (self st) = q)
    then Some (generate_key (entropy (world st)))
    else file_data (world st) q.
Proof.
  unfold key_created. by rewrite file_data_w_try_chmod, file_data_w_write.
Qed.

Lemma file_data_config_written c m st q :
  file_data (config_written c m st) q
  = if decide (config_file (self st) = q)
    then Some (blob_of c (entropy (world st)) m)
    else file_data (world st) q.
Proof.
  unfold config_written. by rewrite file_data_w_try_chmod, file_data_w_write.
Qed.

Lemma denials_key_created st : denials (key_created st) = denials (world st).
Proof. unfold key_created. by rewrite denials_w_try_chmod. Qed.

Lemma denials_config_written c m st :
  denials (config_written c m st) = denials (world st).
Proof. unfold config_written. by rewrite denials_w_try_chmod. Qed.

(** What a successful [save_config] leaves behind. *)
Lemma save_config_inv st m st' :
  save_config m st = (inr tt, st') →
  ∃ c st1,
    _get_cipher st = (inr c, st1)
    ∧ self st' = with_cipher c (self st)
    ∧ world st' = config_written c m st1
    ∧ config_file (self st) ∉ deny_write (world st1).
Proof.
  rewrite save_config_eq.
  destruct (_get_cipher st) as [[e|c] st1] eqn:Hg; [done|].
  destruct (get_cipher_inv _ _ _ Hg) as [Hs _].
  case_decide as Hw; [done|]. intros ?; simplify_eq. simpl.
  rewrite Hs in Hw. simpl in Hw. rewrite Hs. eauto 10.
Qed.

Lemma get_cipher_key_exists st c st1 :
  _get_cipher st = (inr c, st1) → key_file_live st →
  file_exists (world st1) (master_key_file (self st)) = true.
Proof.
  intros Hg Hlive.
  destruct (get_cipher_inv _ _ _ Hg) as [_ [(Hc & ->)|[(Hc & (f & Hf & _) & ->)|(Hc & Hk & Hf & ->)]]].
  - destruct Hlive as [?|?]; [congruence|done].
  - apply file_exists_true. by rewrite Hf.
  - eapply file_exists_Some. rewrite file_data_key_created. by rewrite decide_True.
Qed.

Lemma get_cipher_denials st c st1 :
  _get_cipher st = (inr c, st1) → denials (world st1) = denials (world st).
Proof.
  intros Hg.
  destruct (get_cipher_inv _ _ _ Hg)
    as [_ [(Hc & ->)|[(Hc & _ & ->)|(Hc & Hk & Hf & ->)]]]; try done.
  apply denials_key_created.
Qed.

Lemma save_config_denials st m st' :
  save_config m st = (inr tt, st') → denials (world st') = denials (world st).
Proof.
  intros (c & st1 & Hg & _ & -> & _)%save_config_inv.
  by rewrite denials_config_written, (get_cipher_denials _ _ _ Hg).
Qed.

Lemma save_config_configured st m st' :
  key_file_live st → save_config m st = (inr tt, st') →
  is_configured st' = (inr true, st').
Proof.
  intros Hlive (c & st1 & Hg & Hs & Hw & _)%save_config_inv.
  rewrite is_configured_eq. do 2 f_equal.
  rewrite Hs, Hw. simpl.
  pose proof (get_cipher_key_exists _ _ _ Hg Hlive) as Hk.
  destruct (get_cipher_inv _ _ _ Hg) as [Hs1 _].
  apply andb_true_iff. split.
  - eapply file_exists_Some. rewrite file_data_config_written.
    rewrite Hs1. simpl. by rewrite decide_True.
  - apply file_exists_is_Some in Hk as [b Hb].
    destruct (decide (config_file (self st) = master_key_file (self st))) as [Heq|Hne].
    + eapply file_exists_Some. rewrite file_data_config_written.
      rewrite Hs1. simpl. by rewrite decide_True.
    + eapply file_exists_Some. rewrite file_data_config_written.
      rewrite Hs1. simpl. by rewrite decide_False.
Qed.

Lemma save_load_roundtrip st m st' :
  key_file_live st →
  config_file (self st) ∉ deny_read (world st) →
  save_config m st = (inr tt, st') →
  load_config st' = (inr (Some (PDict m)), st').
Proof.
  intros Hlive Hr Hsave.
  pose proof (save_config_configured _ _ _ Hlive Hsave) as Hconf.
  rewrite is_configured_eq in Hconf. injection Hconf as Hconf.
  apply save_config_inv in Hsave as (c & st1 & Hg & Hs & Hw & _).
  destruct (get_cipher_inv _ _ _ Hg) as [Hs1 _].
  rewrite (load_config_configured _ Hconf).
  rewrite (get_cipher_cached st' c) by (by rewrite Hs).
  erewrite read_bytes_ok; cycle 1.
  { rewrite Hw, (denials_read _ _ (denials_config_written _ _ _)),
      (denials_read _ _ (get_cipher_denials _ _ _ Hg)).
    by rewrite Hs. }
  { rewrite Hw, file_data_config_written, Hs1, Hs. simpl. by rewrite decide_True. }
  unfold blob_of.
  by rewrite decrypt_encrypt, bytes_decode_encode, json_loads_dumps.
Qed.

Lemma get_cipher_key_synced st c st1 :
  _get_cipher st = (inr c, st1) → key_cache_synced st →
  ∃ key, file_data (world st1) (master_key_file (self st)) = Some key
         ∧ Fernet key = Some c.
Proof.
  intros Hg Hsync.
  destruct (get_cipher_inv _ _ _ Hg)
    as [_ [(Hc & ->)|[(Hc & (f & Hf & Hk) & ->)|(Hc & Hk & Hf & ->)]]].
  - by apply Hsync.
  - exists (data f). split; [|done]. unfold file_data. by rewrite Hf.
  - eexists. split; [|done]. rewrite file_data_key_created. by rewrite decide_True.
Qed.

Lemma file_data_lookup w p b :
  file_data w p = Some b → ∃ f, files w !! p = Some f ∧ data f = b.
Proof.
  unfold file_data. destruct (files w !! p) as [f|]; [|done].
  intros [= <-]. eauto.
Qed.

Lemma fresh_instance_loads st m st' :
  config_file (self st) ≠ master_key_file (self st) →
  key_cache_synced st →
  config_file (self st) ∉ deny_read (world st) →
  master_key_file (self st) ∉ deny_read (world st) →
  save_config m st = (inr tt, st') →
  ∃ st'', load_config (fresh_instance st') = (inr (Some (PDict m)), st'')
          ∧ world st'' = world st'.
Proof.
  intros Hne Hsync Hrc Hrk Hsave.
  pose proof (save_config_denials _ _ _ Hsave) as Hden.
  apply save_config_inv in Hsave as (c & st1 & Hg & Hs & Hw & _).
  destruct (get_cipher_inv _ _ _ Hg) as [Hs1 _].
  destruct (get_cipher_key_synced _ _ _ Hg Hsync) as (key & Hkey & Hvalid).
  assert (file_data (world st') (master_key_file (self st)) = Some key) as Hk'.
  { rewrite Hw, file_data_config_written, Hs1. simpl. by rewrite decide_False. }
  assert (file_data (world st') (config_file (self st))
          = Some (blob_of c (entropy (world st1)) m)) as Hc'.
  { rewrite Hw, file_data_config_written, Hs1. simpl. by rewrite decide_True. }
  destruct (file_data_lookup _ _ _ Hk') as (f & Hf & Hdata).
  eexists. rewrite load_config_configured; cycle 1.
  { unfold fresh_instance. simpl. rewrite Hs. simpl.
    by rewrite (file_exists_Some _ _ _ Hk'), (file_exists_Some _ _ _ Hc'). }
  rewrite (get_cipher_read _ f); unfold fresh_instance; simpl;
    rewrite ?Hs; simpl; try done; cycle 1.
  { by rewrite (denials_read _ _ Hden). }
  rewrite Hdata, Hvalid.
  erewrite read_bytes_ok; simpl; cycle 1.
  { by rewrite (denials_read _ _ Hden). }
  { done. }
  unfold blob_of.
  by rewrite decrypt_encrypt, bytes_decode_encode, json_loads_dumps.
Qed.

(** [update_config] *)
Lemma update_config_eq st u :
  update_config u st
  = match load_config st with
    | (inl e, st1) => (inl e, st1)
    | (inr loaded, st1) =>
        match or_empty loaded with
        | PDict d => save_config (u ∪ d) st1
        | _ => (inl AttributeError, st1)
        end
    end.
Proof.
  unfold update_config, bind at 1.
  destruct (load_config st) as [[e|loaded] st1]; [done|].
  unfold bind, dict_update. by destruct (or_empty loaded).
Qed.

Lemma or_empty_dict d : or_empty (Some (PDict d)) = PDict d.
Proof.
  unfold or_empty, truthy. destruct (size d =? 0) eqn:Hd; [|done].
  simpl. apply Nat.eqb_eq in Hd. by rewrite (map_size_empty_inv _ Hd).
Qed.

Lemma load_config_ok_inv st loaded st1 :
  load_config st = (inr loaded, st1) →
  world st1 = world st
  ∧ config_file (self st1) = config_file (self st)
  ∧ master_key_file (self st1) = master_key_file (self st)
  ∧ (key_file_live st → key_file_live st1).
Proof.
  destruct (file_exists (world st) (config_file (self st))
            && file_exists (world st) (master_key_file (self st))) eqn:Hconf.
  - rewrite (load_config_configured _ Hconf).
    apply andb_true_iff in Hconf as [_ Hk].
    destruct (_get_cipher st) as [[e|c] st2] eqn:Hg; [done|].
    intros Hload.
    assert (st1 = st2) as ->.
    { revert Hload. repeat case_match; intros; by simplify_eq. }
    destruct (get_cipher_inv _ _ _ Hg)
      as [Hs [(Hc & Hw)|[(Hc & _ & Hw)|(Hc & Habs & _)]]].
    + unfold key_file_live. rewrite Hs, Hw. repeat split; try done. by right.
    + unfold key_file_live. rewrite Hs, Hw. repeat split; try done. by right.
    + apply file_exists_true in Hk. rewrite Habs in Hk. by destruct Hk.
  - rewrite (load_config_not_configured _ Hconf). intros; by simplify_eq.
Qed.

Lemma update_config_then_load st u st' :
  key_file_live st →
  config_file (self st) ∉ deny_read (world st) →
  update_config u st = (inr tt, st') →
  ∃ loaded base st1,
    load_config st = (inr loaded, st1)
    ∧ or_empty loaded = PDict base
    ∧ load_config st' = (inr (Some (PDict (u ∪ base))), st').
Proof.
  intros Hlive Hr. rewrite update_config_eq.
  destruct (load_config st) as [[e|loaded] st1] eqn:Hload; [done|].
  destruct (load_config_ok_inv _ _ _ Hload) as (Hw & Hcf & Hkf & Hlive1).
  destruct (or_empty loaded) as [| | | | |base] eqn:Hbase; try done.
  intros Hsave. exists loaded, base, st1. repeat split; try done.
  eapply save_load_roundtrip; [by apply Hlive1| |done].
  by rewrite Hcf, Hw.
Qed.

Lemma update_config_twice st u1 u2 st1 st2 :
  key_file_live st →
  config_file (self st) ∉ deny_read (world st) →
  update_config u1 st = (inr tt, st1) →
  update_config u2 st1 = (inr tt, st2) →
  ∃ loaded base st0,
    load_config st = (inr loaded, st0)
    ∧ or_empty loaded = PDict base
    ∧ load_config st2 = (inr (Some (PDict (u2 ∪ (u1 ∪ base)))), st2).
Proof.
  intros Hlive Hr Hu1 Hu2.
  destruct (update_config_then_load _ _ _ Hlive Hr Hu1)
    as (loaded & base & st0 & Hload & Hbase & Hload1).
  exists loaded, base, st0. repeat split; try done.
  revert Hu2. rewrite update_config_eq, Hload1, or_empty_dict.
  intros Hsave.
  (* the state after the first update is configured *)
  revert Hu1. rewrite update_config_eq, Hload, Hbase. intros Hsave1.
  destruct (load_config_ok_inv _ _ _ Hload) as (Hw & Hcf & Hkf & Hlive0).
  pose proof (save_config_configured _ _ _ (Hlive0 Hlive) Hsave1) as Hconf.
  rewrite is_configured_eq in Hconf. injection Hconf as Hconf.
  apply andb_true_iff in Hconf as [_ Hk].
  eapply save_load_roundtrip; [by right| |done].
  pose proof (save_config_denials _ _ _ Hsave1) as Hden.
  apply save_config_inv in Hsave1 as (c & st3 & Hg & Hs & _).
  rewrite (denials_read _ _ Hden), Hs. simpl. by rewrite Hcf, Hw.
Qed.

(** ** A cached cipher whose key file is gone *)

Lemma save_config_key_file_lost st m :
  key_file_lost st →
  config_file (self st) ∉ deny_write (world st) →
  ∃ c st',
    _cipher (self st) = Some c
    ∧ save_config m st = (inr tt, st')
    ∧ self st' = self st
    ∧ world st' = config_written c m st
    ∧ key_file_lost st'.
Proof.
  intros ([c Hc] & Hk & Hne) Hw.
  exists c, (State (self st) (config_written c m st)).
  split; [done|].
  rewrite save_config_eq, (get_cipher_cached _ _ Hc), decide_False by done.
  repeat split; simpl; try done.
  apply file_exists_None. rewrite file_data_config_written.
  rewrite decide_False by done. apply file_exists_false in Hk.
  unfold file_data. by rewrite Hk.
Qed.

Lemma key_file_lost_not_configured st :
  key_file_lost st → is_configured st = (inr false, st).
Proof.
  intros (_ & Hk & _). rewrite is_configured_eq, Hk. by rewrite andb_false_r.
Qed.

Lemma key_file_lost_load st : key_file_lost st → load_config st = (inr None, st).
Proof.
  intros (_ & Hk & _). apply load_config_not_configured.
  by rewrite Hk, andb_false_r.
Qed.

(** [/setup] then [/reset-config] leaves the global manager in that state. *)
Lemma setup_then_reset first :
  ∃ st,
    bind (save_config first) (λ _, delete_config) st_init = (inr tt, st)
    ∧ key_file_lost st
    ∧ config_file (self st) = default_config_file
    ∧ master_key_file (self st) = default_master_key_file
    ∧ file_exists (world st) default_config_file = false
    ∧ denials (world st) = denials empty_world.
Proof.
  destruct (get_cipher_create st_init) as (c & Hvalid & Hg); [done..|].
  eexists. split.
  { erewrite bind_ok; cycle 1.
    { rewrite save_config_eq, Hg. simpl. by rewrite decide_False by done. }
    by apply delete_config_permitted. }
  simpl. by repeat split.
Qed.

Lemma setup_reset_setup_lost first second :
  ∃ st, setup_reset_setup first second st_init = (inr tt, st)
        ∧ key_file_lost st
        ∧ config_file (self st) = default_config_file
        ∧ master_key_file (self st) = default_master_key_file
        ∧ file_exists (world st) default_config_file = true.
Proof.
  destruct (setup_then_reset first) as (st & Hrun & Hlost & Hcf & Hkf & _ & Hden).
  destruct (save_config_key_file_lost st second Hlost)
    as (c & st' & Hc & Hsave & Hs & Hw & Hlost').
  { by rewrite (denials_write _ _ Hden). }
  exists st'. rewrite Hs. split; [|split; [done|split; [done|split; [done|]]]].
  - unfold setup_reset_setup. revert Hrun. unfold bind.
    destruct (save_config first st_init) as [[e|[]] st1]; [done|].
    destruct (delete_config st1) as [[e|[]] st2]; [done|].
    intros; by simplify_eq.
  - rewrite Hw. eapply file_exists_Some.
    rewrite file_data_config_written, Hcf. by rewrite decide_True.
Qed.
End ManagerTheorems.

(** ** The claims on the manager *)

Section Claims.
Context `{FernetLib} `{JsonLib}.
Implicit Types (st : state) (c : cipher) (m : Dict).


(** ** The manager after a reset

    [delete_config] removes the key file but leaves [_cipher] cached, so the
    next [save_config] on the same manager encrypts under the cached cipher
    and never writes the key file again. *)

(** C1, evaluated where the code departs from it.  The claim: for every
    mapping [m], [save_config(m)] followed by [load_config()] returns [m].
    On the application's manager, after [/setup], [/reset-config] and a
    second [/setup] (that is [save_config], [delete_config], [save_config])
    the second save succeeds and [load_config] answers [None], not the
    mapping just saved.  With a live key file the round trip holds:
    [save_load_roundtrip]. *)
Theorem save_then_load_after_reset first second :
  ∃ st, setup_reset_setup first second st_init = (inr tt, st)
        ∧ load_config st = (inr None, st).
Proof.
  destruct (setup_reset_setup_lost first second) as (st & Hrun & Hlost & _).
  exists st. split; [done|]. by apply key_file_lost_load.
Qed.


(** C9, evaluated where the code departs from it.  The claim: after a
    successful [save_config], [is_configured()] is true, the key file being
    created when it is absent.  After [save_config], [delete_config],
    [save_config] the last save succeeds and leaves the configuration file
    present and the key file absent, so [is_configured] answers false.  With
    a live key file the claim holds: [save_config_configured]. *)
Theorem save_after_reset_not_configured first second :
  ∃ st, setup_reset_setup first second st_init = (inr tt, st)
        ∧ is_configured st = (inr false, st)
        ∧ file_exists (world st) default_config_file = true
        ∧ file_exists (world st) default_master_key_file = false.
Proof.
  destruct (setup_reset_setup_lost first second)
    as (st & Hrun & Hlost & Hcf & Hkf & Hc).
  exists st. repeat split; try done.
  - by apply key_file_lost_not_configured.
  - destruct Hlost as (_ & Hk & _). by rewrite <-Hkf.
Qed.


(** C8, evaluated where the code departs from it.  The claim: after one
    manager has saved [m], a freshly constructed manager on the same paths
    loads [m].  When the saving manager went through [save_config],
    [delete_config], [save_config], the fresh manager finds no key file and
    [load_config] answers [None].  When the saving manager's cache agrees
    with the key file the claim holds: [fresh_instance_loads]. *)
Theorem fresh_instance_after_reset first second :
  ∃ st, setup_reset_setup first second st_init = (inr tt, st)
        ∧ load_config (fresh_instance st) = (inr None, fresh_instance st).
Proof.
  destruct (setup_reset_setup_lost first second) as (st & Hrun & Hlost & _).
  exists st. split; [done|]. apply load_config_not_configured.
  destruct Hlost as (_ & Hk & _). simpl. by rewrite Hk, andb_false_r.
Qed.


(** C4, evaluated where the code departs from it.  The claim:
    [update_config({"a": 1})] followed by [update_config({"b": 2})] stores a
    mapping with both [a] and [b].  After [save_config], [delete_config] on
    the same manager, each update finds the manager not configured and
    starts from the empty mapping: the blob stored at the end is the
    encryption of [{"b": 2}] alone, and [load_config] answers [None].  With a
    live key file the claim holds: [update_config_twice]. *)
Theorem update_update_after_reset first :
  ∃ st c r,
    setup_reset_update_update first {["a" := PInt 1]} {["b" := PInt 2]} st_init
    = (inr tt, st)
    ∧ _cipher (self st) = Some c
    ∧ file_data (world st) default_config_file
      = Some (blob_of c r {["b" := PInt 2]})
    ∧ load_config st = (inr None, st).
Proof.
  destruct (setup_then_reset first) as (st & Hrun & Hlost & Hcf & Hkf & _ & Hden).
  assert (∀ st u, key_file_lost st →
            config_file (self st) ∉ deny_write (world st) →
            ∃ c st', _cipher (self st) = Some c
                     ∧ update_config u st = (inr tt, st')
                     ∧ self st' = self st
                     ∧ world st' = config_written c u st
                     ∧ key_file_lost st') as Hupd.
  { intros st0 u Hl Hw. rewrite update_config_eq, (key_file_lost_load _ Hl).
    simpl. rewrite (right_id_L ∅ (∪)). by apply save_config_key_file_lost. }
  destruct (Hupd st {["a" := PInt 1]} Hlost)
    as (c & st1 & Hc & Hu1 & Hs1 & Hw1 & Hlost1).
  { by rewrite (denials_write _ _ Hden). }
  destruct (Hupd st1 {["b" := PInt 2]} Hlost1)
    as (c' & st2 & Hc' & Hu2 & Hs2 & Hw2 & Hlost2).
  { rewrite Hw1, (denials_write _ _ (denials_config_written _ _ _)), Hs1.
    by rewrite (denials_write _ _ Hden). }
  exists st2, c', (entropy (world st1)). repeat split.
  - unfold setup_reset_update_update. revert Hrun. unfold bind.
    destruct (save_config first st_init) as [[e|[]] st']; [done|].
    destruct (delete_config st') as [[e|[]] st'']; [done|].
    intros; simplify_eq. by rewrite Hu1.
  - by rewrite Hs2.
  - rewrite Hw2, file_data_config_written, Hs1, Hcf. by rewrite decide_True.
  - by apply key_file_lost_load.
Qed.


(** ** What [load_config] answers *)
Lemma load_config_raises st e st1 :
  load_config st = (inl e, st1) →
  is_configured st = (inr true, st)
  ∧ ∃ cause, e = ValueError_Failed_to_load cause.
Proof.
  rewrite is_configured_eq.
  destruct (file_exists (world st) (config_file (self st))
            && file_exists (world st) (master_key_file (self st))) eqn:Hconf.
  - rewrite (load_config_configured _ Hconf). intros Hl. split; [done|].
    revert Hl. repeat case_match; intros; simplify_eq; eauto.
  - by rewrite (load_config_not_configured _ Hconf).
Qed.




(** C10.  When the configuration file or the key file is missing,
    [load_config] answers [None] and leaves everything as it was: no file is
    created, changed or removed (so no key file is generated), and the
    manager object is unchanged too. *)
Theorem load_config_not_configured_frame st :
  file_exists (world st) (config_file (self st)) = false
  ∨ file_exists (world st) (master_key_file (self st)) = false →
  (load_config st).1 = inr None
  ∧ files (world (load_config st).2) = files (world st)
  ∧ (load_config st).2 = st.
Proof.
  intros Hmiss. rewrite load_config_not_configured; [done|].
  apply andb_false_iff. by destruct Hmiss; [left|right].
Qed.

Lemma file_exists_w_unlink w p q :
  file_exists (w_unlink p w) q = bool_decide (p ≠ q) && file_exists w q.
Proof.
  rewrite !file_exists_data, file_data_w_unlink.
  by case_decide; subst; repeat case_bool_decide.
Qed.


(** C3.  [delete_config] returns normally as soon as the files that exist
    may be unlinked; a missing file is skipped, and with both missing the
    call changes nothing.  Once it has returned, neither file exists, every
    other file is untouched, [is_configured] is false and [load_config]
    answers [None] instead of raising. *)
Theorem delete_config_spec st :
  ((file_exists (world st) (config_file (self st)) = true →
    config_file (self st) ∉ deny_unlink (world st)) →
   (file_exists (world st) (master_key_file (self st)) = true →
    master_key_file (self st) ∉ deny_unlink (world st)) →
   ∃ st', delete_config st = (inr tt, st'))
  ∧ (file_exists (world st) (config_file (self st)) = false →
     file_exists (world st) (master_key_file (self st)) = false →
     delete_config st = (inr tt, st))
  ∧ (∀ st',
       delete_config st = (inr tt, st') →
       file_exists (world st') (config_file (self st)) = false
       ∧ file_exists (world st') (master_key_file (self st)) = false
       ∧ (∀ p, p ≠ config_file (self st) → p ≠ master_key_file (self st) →
               files (world st') !! p = files (world st) !! p)
       ∧ is_configured st' = (inr false, st')
       ∧ load_config st' = (inr None, st')).
Proof.
  split; [|split].
  - intros Hdc Hdk.
    unfold delete_config, bind, get_self, path_exists, ret.
    destruct (file_exists (world st) (config_file (self st))) eqn:Hc.
    + rewrite (unlink_existing _ _ Hc), decide_False by auto. simpl.
      destruct (file_exists (w_unlink _ _) (master_key_file (self st))) eqn:Hk;
        [|eauto].
      rewrite unlink_existing by done. simpl.
      rewrite decide_False; [eauto|]. apply Hdk.
      rewrite file_exists_w_unlink in Hk. by apply andb_true_iff in Hk as [_ ?].
    + destruct (file_exists _ (master_key_file (self st))) eqn:Hk; [|eauto].
      rewrite unlink_existing by done. rewrite decide_False by auto. eauto.
  - apply delete_config_absent.
  - intros st' (Hs & Hw)%delete_config_inv.
    assert (file_exists (world st') (config_file (self st)) = false) as Hc.
    { rewrite Hw, !file_exists_w_unlink.
      rewrite (bool_decide_eq_false_2 (config_file (self st) ≠ _)) by auto.
      by rewrite andb_false_r. }
    assert (file_exists (world st') (master_key_file (self st)) = false) as Hk.
    { rewrite Hw, file_exists_w_unlink.
      by rewrite (bool_decide_eq_false_2 (master_key_file (self st) ≠ _)) by auto. }
    repeat split; try done.
    + intros p Hpc Hpk. rewrite Hw. simpl.
      by rewrite !lookup_delete_ne.
    + by rewrite is_configured_eq, Hs, Hc.
    + apply load_config_not_configured. by rewrite Hs, Hc.
Qed.


(** ** Filesystem errors *)
Lemma get_cipher_raises st e st' :
  _get_cipher st = (inl e, st') →
  _cipher (self st) = None
  ∧ (e = PermissionError (master_key_file (self st)) ∨ e = ValueError_Fernet_key).
Proof.
  intros Hg. revert Hg.
  destruct (_cipher (self st)) as [c|] eqn:Hc.
  { by rewrite (get_cipher_cached _ _ Hc). }
  intros Hg. split; [done|]. revert Hg.
  unfold _get_cipher, bind at 1, get_self. rewrite Hc.
  unfold _get_or_create_master_key, bind, get_self, path_exists, read_bytes,
    urandom, write_bytes.
  destruct (file_exists (world st) (master_key_file (self st))) eqn:Hk.
  - case_decide; [intros; simplify_eq; by left|].
    apply file_exists_true in Hk as [f ->].
    destruct (Fernet (data f)); [done|]. simpl. intros; simplify_eq. by right.
  - simpl. case_decide; [intros; simplify_eq; by left|].
    rewrite try_chmod. simpl.
    by destruct (generate_key_valid (entropy (world st))) as [c ->].
Qed.

Lemma save_config_raises st m e st' :
  save_config m st = (inl e, st') →
  e = PermissionError (config_file (self st))
  ∨ e = PermissionError (master_key_file (self st))
  ∨ e = ValueError_Fernet_key.
Proof.
  rewrite save_config_eq.
  destruct (_get_cipher st) as [[e'|c] st1] eqn:Hg.
  - intros; simplify_eq.
    destruct (get_cipher_raises _ _ _ Hg) as [_ [->| ->]]; auto.
  - destruct (get_cipher_inv _ _ _ Hg) as [Hs _].
    case_decide; [|done]. intros; simplify_eq. left. by rewrite Hs.
Qed.

Lemma delete_config_raises st e st' :
  delete_config st = (inl e, st') →
  e = PermissionError (config_file (self st))
  ∨ e = PermissionError (master_key_file (self st)).
Proof.
  unfold delete_config, bind, get_self, path_exists, ret.
  destruct (file_exists (world st) (config_file (self st))) eqn:Hc.
  - rewrite (unlink_existing _ _ Hc).
    case_decide; [intros; simplify_eq; by left|]. simpl.
    destruct (file_exists (w_unlink _ _) (master_key_file (self st))) eqn:Hk;
      [|done].
    rewrite unlink_existing by done. simpl.
    case_decide; [|done]. intros; simplify_eq; by right.
  - destruct (file_exists (world st) (master_key_file (self st))) eqn:Hk;
      [|done].
    rewrite unlink_existing by done.
    case_decide; [|done]. intros; simplify_eq; by right.
Qed.


Lemma update_config_raises st u e st' :
  update_config u st = (inl e, st') →
  (∃ cause, e = ValueError_Failed_to_load cause)
  ∨ e = AttributeError
  ∨ e = PermissionError (config_file (self st))
  ∨ e = PermissionError (master_key_file (self st))
  ∨ e = ValueError_Fernet_key.
Proof.
  rewrite update_config_eq.
  destruct (load_config st) as [[e'|loaded] st1] eqn:Hload.
  - intros ?; simplify_eq.
    destruct (load_config_raises _ _ _ Hload) as (_ & cause & ->). eauto.
  - destruct (load_config_ok_inv _ _ _ Hload) as (_ & Hcf & Hkf & _).
    destruct (or_empty loaded);
      try (intros ?; simplify_eq; by right; left).
    intros [->|[->| ->]]%save_config_raises; rewrite ?Hcf, ?Hkf; auto.
Qed.

End Claims.

(** ** The validator *)

Lemma subscript_truthy d k :
  truthy (dict_get d k) = true → subscript d k = inr (dict_get d k).
Proof.
  unfold subscript, dict_get. by destruct (d !! k).
Qed.

Lemma and_not_startswith_rule d k prefix reason :
  (if present d k then must_start_with (dict_get d k) prefix reason
   else inr None)
  = match and_not_startswith d k prefix with
    | inl e => inl e
    | inr true => inr (Some reason)
    | inr false => inr None
    end.
Proof.
  unfold present, and_not_startswith.
  destruct (truthy (dict_get d k)) eqn:Ht; [|done].
  rewrite (subscript_truthy _ _ Ht).
  destruct (dict_get d k); simpl; try done.
  by destruct (String.prefix prefix s).
Qed.

Lemma validate_setup_data_rules d :
  validate_setup_data d = first_failure rules_in_order d.
Proof.
  unfold validate_setup_data, rules_in_order, first_failure, rule1, rule2,
    rule3, rule4, rule5, rule6.
  rewrite !and_not_startswith_rule. unfold present.
  destruct (truthy (dict_get d "llm_provider")); simpl; [|done].
  destruct (eq_str (dict_get d "llm_provider") "groq"),
    (eq_str (dict_get d "llm_provider") "openai"),
    (truthy (dict_get d "groq_api_key")),
    (truthy (dict_get d "openai_api_key")); simpl; try done;
  destruct (and_not_startswith d "openai_api_key" "sk-") as [|[]]; try done;
  destruct (and_not_startswith d "groq_api_key" "gsk_") as [|[]]; done.
Qed.



Lemma validate_setup_data_fields d1 d2 :
  d1 !! "llm_provider" = d2 !! "llm_provider" →
  d1 !! "groq_api_key" = d2 !! "groq_api_key" →
  d1 !! "openai_api_key" = d2 !! "openai_api_key" →
  validate_setup_data d1 = validate_setup_data d2.
Proof.
  intros Hp Hg Ho.
  unfold validate_setup_data, and_not_startswith, subscript, dict_get.
  by rewrite Hp, Hg, Ho.
Qed.



(** * Further properties of the code *)

(** ** The manager *)

Section FilesLemmas.
Implicit Types (w : World) (p q : Path).

Lemma files_w_write_ne w p b q : p ≠ q → files (w_write p b w) !! q = files w !! q.
Proof. intros Hne. unfold w_write; simpl. by rewrite lookup_insert_ne. Qed.

Lemma files_w_chmod_ne w p m q : p ≠ q → files (w_chmod p m w) !! q = files w !! q.
Proof.
  intros Hne. unfold w_chmod. destruct (files w !! p); [|done].
  simpl. by rewrite lookup_insert_ne.
Qed.

Lemma files_w_try_chmod_ne w p q :
  p ≠ q → files (w_try_chmod p w) !! q = files w !! q.
Proof. intros Hne. unfold w_try_chmod. case_decide; [done|]. by apply files_w_chmod_ne. Qed.

Lemma mode_w_try_chmod w p :
  p ∉ deny_chmod w → is_Some (files w !! p) →
  mode <$> files (w_try_chmod p w) !! p = Some owner_only.
Proof.
  intros Hd [f Hf]. unfold w_try_chmod. rewrite decide_False by done.
  unfold w_chmod. rewrite Hf. simpl. by rewrite lookup_insert_eq.
Qed.

Lemma deny_chmod_w_write w p b : deny_chmod (w_write p b w) = deny_chmod w.
Proof. done. Qed.
End FilesLemmas.

Section More.
Context `{FernetLib} `{JsonLib}.
Implicit Types (st : state) (c : cipher) (m : Dict).

Lemma get_cipher_world_key_exists st :
  file_exists (world st) (master_key_file (self st)) = true →
  world (_get_cipher st).2 = world st.
Proof.
  intros Hk. destruct (_get_cipher st) as [[e|c] st1] eqn:Hg; simpl.
  - revert Hg. destruct (_cipher (self st)) as [c|] eqn:Hc.
    { by rewrite (get_cipher_cached _ _ Hc). }
    unfold _get_cipher, bind at 1, get_self. rewrite Hc.
    unfold _get_or_create_master_key, bind, get_self, path_exists, read_bytes.
    rewrite Hk. case_decide; [intros; by simplify_eq|].
    apply file_exists_true in Hk as [f ->].
    destruct (Fernet (data f)); simpl; intros; by simplify_eq.
  - destruct (get_cipher_inv _ _ _ Hg)
      as [_ [(_ & ->)|[(_ & _ & ->)|(_ & Habs & _)]]]; try done.
    apply file_exists_true in Hk. rewrite Habs in Hk. by destruct Hk.
Qed.

Lemma get_cipher_self st :
  self (_get_cipher st).2 = self st
  ∨ ∃ c, self (_get_cipher st).2 = with_cipher c (self st).
Proof.
  destruct (_cipher (self st)) as [c|] eqn:Hc.
  { rewrite (get_cipher_cached _ _ Hc). by left. }
  assert (∃ r, r = _get_cipher st) as [r Hr] by eauto.
  rewrite <-Hr. revert Hr.
  unfold _get_cipher, bind at 1, get_self. rewrite Hc.
  unfold _get_or_create_master_key, bind, get_self, path_exists, read_bytes,
    urandom, write_bytes.
  destruct (file_exists (world st) (master_key_file (self st))).
  - case_decide; simpl; [intros ->; by left|].
    destruct (files (world st) !! master_key_file (self st)) as [f|];
      simpl; [|intros ->; by left].
    destruct (Fernet (data f)); simpl; intros ->; [right; by eexists|by left].
  - simpl. case_decide; simpl; [intros ->; by left|]. rewrite try_chmod. simpl.
    destruct (Fernet _); simpl; intros ->; [right; by eexists|by left].
Qed.

Lemma get_cipher_paths st :
  config_file (self (_get_cipher st).2) = config_file (self st)
  ∧ master_key_file (self (_get_cipher st).2) = master_key_file (self st).
Proof. by destruct (get_cipher_self st) as [->|[c ->]]. Qed.

Lemma load_config_world st :
  world (load_config st).2 = world st
  ∧ config_file (self (load_config st).2) = config_file (self st)
  ∧ master_key_file (self (load_config st).2) = master_key_file (self st).
Proof.
  destruct (file_exists (world st) (config_file (self st))
            && file_exists (world st) (master_key_file (self st))) eqn:Hconf.
  - rewrite (load_config_configured _ Hconf).
    apply andb_true_iff in Hconf as [_ Hk].
    pose proof (get_cipher_world_key_exists _ Hk) as Hw.
    pose proof (get_cipher_paths st) as Hp.
    destruct (_get_cipher st) as [[e|c] st1]; simpl in *; [done|].
    by repeat case_match.
  - by rewrite (load_config_not_configured _ Hconf).
Qed.

Lemma load_config_self st :
  self (load_config st).2 = self st
  ∨ (_cipher (self st) = None
     ∧ ∃ f c, files (world st) !! master_key_file (self st) = Some f
              ∧ Fernet (data f) = Some c
              ∧ self (load_config st).2 = with_cipher c (self st)).
Proof.
  destruct (file_exists (world st) (config_file (self st))
            && file_exists (world st) (master_key_file (self st))) eqn:Hconf.
  - rewrite (load_config_configured _ Hconf).
    apply andb_true_iff in Hconf as [_ Hk].
    destruct (_get_cipher st) as [[e|c] st1] eqn:Hg; simpl.
    + destruct (_cipher (self st)) as [c|] eqn:Hc.
      { by rewrite (get_cipher_cached _ _ Hc) in Hg. }
      revert Hg. unfold _get_cipher, bind at 1, get_self. rewrite Hc.
      unfold _get_or_create_master_key, bind, get_self, path_exists, read_bytes.
      rewrite Hk. case_decide; [intros [= <- <-]; by left|].
      apply file_exists_true in Hk as [f ->].
      destruct (Fernet (data f)); simpl; [done|]. intros [= <- <-]. by left.
    + destruct (get_cipher_inv _ _ _ Hg)
        as [Hs [(Hc & _)|[(Hc & (f & Hf & Hv) & _)|(_ & Habs & _)]]].
      * assert (self st1 = self st) as Hs'.
        { rewrite Hs. destruct (self st); simpl in *. by rewrite Hc. }
        left. by repeat case_match.
      * right. split; [done|]. exists f, c. repeat split; try done.
        by repeat case_match.
      * apply file_exists_true in Hk. rewrite Habs in Hk. by destruct Hk.
  - rewrite (load_config_not_configured _ Hconf). by left.
Qed.

(** X1.  [load_config] never writes.  Whatever it returns or raises, the
    files, the refusals and the entropy counter are as before, and the
    manager is unchanged unless it had no cipher yet and has now cached the
    one of the key file it read. *)
Theorem load_config_read_only st :
  world (load_config st).2 = world st
  ∧ (self (load_config st).2 = self st
     ∨ (_cipher (self st) = None
        ∧ ∃ f c, files (world st) !! master_key_file (self st) = Some f
                 ∧ Fernet (data f) = Some c
                 ∧ self (load_config st).2 = with_cipher c (self st))).
Proof. split; [apply load_config_world|apply load_config_self]. Qed.

(** X2.  A successful [save_config] touches its two files only: every
    other file is as before, a key file that existed keeps its content,
    nothing becomes refused or permitted, and the manager keeps its two
    paths. *)
Theorem save_config_frame st m st' :
  save_config m st = (inr tt, st') →
  (∀ p, p ≠ config_file (self st) → p ≠ master_key_file (self st) →
        files (world st') !! p = files (world st) !! p)
  ∧ (config_file (self st) ≠ master_key_file (self st) →
     ∀ key, file_data (world st) (master_key_file (self st)) = Some key →
            file_data (world st') (master_key_file (self st)) = Some key)
  ∧ denials (world st') = denials (world st)
  ∧ config_file (self st') = config_file (self st)
  ∧ master_key_file (self st') = master_key_file (self st).
Proof.
  intros Hsave. pose proof (save_config_denials _ _ _ Hsave) as Hden.
  apply save_config_inv in Hsave as (c & st1 & Hg & Hs & Hw & _).
  destruct (get_cipher_inv _ _ _ Hg) as [Hs1 Hcases].
  repeat apply conj; try done; try (by rewrite Hs).
  - intros p Hpc Hpk. rewrite Hw. unfold config_written.
    rewrite files_w_try_chmod_ne, files_w_write_ne by (by rewrite Hs1).
    simpl.
    destruct Hcases as [(_ & ->)|[(_ & _ & ->)|(_ & _ & _ & ->)]]; try done.
    unfold key_created.
    by rewrite files_w_try_chmod_ne, files_w_write_ne by done.
  - intros Hne key Hkey.
    rewrite Hw, file_data_config_written, Hs1. simpl.
    rewrite decide_False by done.
    destruct Hcases as [(_ & ->)|[(_ & _ & ->)|(_ & Habs & _ & ->)]]; try done.
    unfold file_data in Hkey. by rewrite Habs in Hkey.
Qed.

(** X3.  The last save wins.  After two successful saves on a manager
    whose key file is live, [load_config] returns the second mapping. *)
Theorem save_config_overwrites st m1 m2 st1 st2 :
  key_file_live st →
  config_file (self st) ∉ deny_read (world st) →
  save_config m1 st = (inr tt, st1) →
  save_config m2 st1 = (inr tt, st2) →
  load_config st2 = (inr (Some (PDict m2)), st2).
Proof.
  intros Hlive Hr Hs1 Hs2.
  pose proof (save_config_configured _ _ _ Hlive Hs1) as Hconf.
  rewrite is_configured_eq in Hconf. injection Hconf as Hconf.
  apply andb_true_iff in Hconf as [_ Hk].
  pose proof (save_config_denials _ _ _ Hs1) as Hden.
  apply save_config_inv in Hs1 as (c & st0 & _ & Hcf & _).
  eapply save_load_roundtrip; [by right| |done].
  by rewrite (denials_read _ _ Hden), Hcf.
Qed.

(** X4.  After a successful [save_config] the configuration file is
    readable by its owner only (mode 0o600) unless chmod was refused on it,
    and so is the key file when this save created it. *)
Theorem save_config_owner_only st m st' :
  save_config m st = (inr tt, st') →
  (config_file (self st) ∉ deny_chmod (world st) →
   mode <$> files (world st') !! config_file (self st) = Some owner_only)
  ∧ (_cipher (self st) = None →
     file_exists (world st) (master_key_file (self st)) = false →
     master_key_file (self st) ∉ deny_chmod (world st) →
     config_file (self st) ≠ master_key_file (self st) →
     mode <$> files (world st') !! master_key_file (self st) = Some owner_only).
Proof.
  intros Hsave. pose proof (save_config_denials _ _ _ Hsave) as Hden.
  apply save_config_inv in Hsave as (c & st1 & Hg & Hs & Hw & _).
  destruct (get_cipher_inv _ _ _ Hg) as [Hs1 Hcases].
  pose proof (get_cipher_denials _ _ _ Hg) as Hden1.
  split.
  - intros Hd. rewrite Hw. unfold config_written. rewrite Hs1. simpl.
    apply mode_w_try_chmod.
    + rewrite deny_chmod_w_write. simpl.
      unfold denials in Hden1. injection Hden1 as _ _ _ ->. done.
    + unfold w_write; simpl. by rewrite lookup_insert_eq.
  - intros Hc Hk Hd Hne.
    destruct Hcases as [(Hc' & _)|[(_ & (f & Hf & _) & _)|(_ & _ & _ & Hw1)]].
    + congruence.
    + apply file_exists_false in Hk. congruence.
    + rewrite Hw. unfold config_written.
      rewrite files_w_try_chmod_ne, files_w_write_ne by (by rewrite Hs1).
      simpl. rewrite Hw1. unfold key_created.
      apply mode_w_try_chmod; [done|].
      unfold w_write; simpl. by rewrite lookup_insert_eq.
Qed.

Lemma first_save_then_load st m :
  _cipher (self st) = None →
  file_exists (world st) (master_key_file (self st)) = false →
  master_key_file (self st) ∉ deny_write (world st) →
  config_file (self st) ∉ deny_write (world st) →
  config_file (self st) ∉ deny_read (world st) →
  ∃ st', save_config m st = (inr tt, st')
         ∧ is_configured st' = (inr true, st')
         ∧ load_config st' = (inr (Some (PDict m)), st').
Proof.
  intros Hc Hk Hwk Hwc Hrc.
  destruct (get_cipher_create st Hc Hk Hwk) as (c & Hvalid & Hg).
  assert (∃ st', save_config m st = (inr tt, st')) as [st' Hsave].
  { rewrite save_config_eq, Hg. simpl. rewrite decide_False; [eauto|].
    by rewrite (denials_write _ _ (denials_key_created _)). }
  exists st'. split; [done|]. split.
  - eapply save_config_configured; [by left|done].
  - eapply save_load_roundtrip; [by left|done|done].
Qed.

(** X5.  A key file whose content the cipher rejects.  On a manager
    without a cached cipher [save_config] raises the cipher's [ValueError]
    and leaves everything as it was (the file is not replaced by a new
    key), and [load_config] raises its ["Failed to load configuration"]
    error around that [ValueError]. *)
Theorem malformed_key_file st f m :
  _cipher (self st) = None →
  files (world st) !! master_key_file (self st) = Some f →
  Fernet (data f) = None →
  master_key_file (self st) ∉ deny_read (world st) →
  save_config m st = (inl ValueError_Fernet_key, st)
  ∧ (file_exists (world st) (config_file (self st)) = true →
     load_config st
     = (inl (ValueError_Failed_to_load ValueError_Fernet_key), st)).
Proof.
  intros Hc Hf Hbad Hr.
  pose proof (get_cipher_read _ _ Hc Hf Hr) as Hg. rewrite Hbad in Hg.
  split.
  - by rewrite save_config_eq, Hg.
  - intros Hcf. rewrite load_config_configured, Hg; [done|].
    rewrite Hcf. simpl. apply file_exists_true. by rewrite Hf.
Qed.

(** X6.  Reset and setup on a manager that holds no cipher (the
    application restarted after a setup).  When the two files may be
    unlinked, written and the configuration file read, [delete_config]
    succeeds, the next [save_config] succeeds and creates the key file
    again, the manager is configured and [load_config] returns the saved
    mapping. *)
Theorem reset_then_save_uncached st m :
  _cipher (self st) = None →
  config_file (self st) ∉ deny_unlink (world st) →
  master_key_file (self st) ∉ deny_unlink (world st) →
  config_file (self st) ∉ deny_write (world st) →
  master_key_file (self st) ∉ deny_write (world st) →
  config_file (self st) ∉ deny_read (world st) →
  ∃ st1 st2,
    delete_config st = (inr tt, st1)
    ∧ save_config m st1 = (inr tt, st2)
    ∧ is_configured st2 = (inr true, st2)
    ∧ load_config st2 = (inr (Some (PDict m)), st2).
Proof.
  intros Hc Huc Huk Hwc Hwk Hrc.
  pose proof (delete_config_permitted _ Huc Huk) as Hdel.
  set (st1 := State (self st)
                (w_unlink (master_key_file (self st))
                   (w_unlink (config_file (self st)) (world st)))) in *.
  assert (file_exists (world st1) (master_key_file (self st1)) = false) as Hk.
  { simpl. rewrite file_exists_w_unlink.
    by rewrite (bool_decide_eq_false_2 (master_key_file (self st) ≠ _)) by auto. }
  destruct (get_cipher_create st1 Hc Hk) as (c & Hvalid & Hg); [done|].
  assert (∃ st2, save_config m st1 = (inr tt, st2)) as [st2 Hsave].
  { rewrite save_config_eq, Hg. simpl. rewrite decide_False; [eauto|].
    by rewrite (denials_write _ _ (denials_key_created _)). }
  exists st1, st2. split; [done|]. split; [done|]. split.
  - apply (save_config_configured st1 m st2); [by left|done].
  - apply (save_load_roundtrip st1 m st2); [by left|exact Hrc|done].
Qed.

(** X7.  [delete_config] is idempotent: after a reset that succeeded,
    a second reset succeeds and changes nothing. *)
Theorem delete_config_twice st st1 :
  delete_config st = (inr tt, st1) → delete_config st1 = (inr tt, st1).
Proof.
  intros (Hs & Hw)%delete_config_inv.
  apply delete_config_absent; rewrite Hs, Hw, !file_exists_w_unlink.
  - rewrite (bool_decide_eq_false_2 (config_file (self st) ≠ _)) by auto.
    by rewrite andb_false_r.
  - by rewrite (bool_decide_eq_false_2 (master_key_file (self st) ≠ _)) by auto.
Qed.

(** X8.  A reset stopped half way.  When both files exist, the
    configuration file may be unlinked and the key file may not,
    [delete_config] raises [PermissionError] for the key file after it has
    removed the configuration file: the key file keeps its content and the
    manager is no longer configured. *)
Theorem delete_config_partial st :
  file_exists (world st) (config_file (self st)) = true →
  file_exists (world st) (master_key_file (self st)) = true →
  config_file (self st) ≠ master_key_file (self st) →
  config_file (self st) ∉ deny_unlink (world st) →
  master_key_file (self st) ∈ deny_unlink (world st) →
  ∃ st', delete_config st = (inl (PermissionError (master_key_file (self st))), st')
         ∧ file_exists (world st') (config_file (self st)) = false
         ∧ file_data (world st') (master_key_file (self st))
           = file_data (world st) (master_key_file (self st))
         ∧ is_configured st' = (inr false, st').
Proof.
  intros Hc Hk Hne Huc Huk.
  exists (State (self st) (w_unlink (config_file (self st)) (world st))).
  assert (file_exists (w_unlink (config_file (self st)) (world st))
            (master_key_file (self st)) = true) as Hk'.
  { rewrite file_exists_w_unlink, Hk. by rewrite bool_decide_eq_true_2. }
  assert (file_exists (w_unlink (config_file (self st)) (world st))
            (config_file (self st)) = false) as Hc'.
  { rewrite file_exists_w_unlink.
    by rewrite (bool_decide_eq_false_2 (config_file (self st) ≠ _)) by auto. }
  repeat apply conj.
  - unfold delete_config, bind, get_self, path_exists.
    rewrite Hc, (unlink_existing _ _ Hc), decide_False by done. simpl.
    rewrite Hk', unlink_existing by done. simpl. by rewrite decide_True.
  - done.
  - simpl. rewrite file_data_w_unlink. by rewrite decide_False.
  - rewrite is_configured_eq. simpl. by rewrite Hc'.
Qed.

(** X9.  A first save stopped half way.  On a new manager without a key
    file, where the key file may be written and the configuration file may
    not, [save_config] raises [PermissionError] for the configuration file
    after it has created the key file and cached its cipher; the
    configuration file is as before. *)
Theorem save_config_partial st m :
  _cipher (self st) = None →
  file_exists (world st) (master_key_file (self st)) = false →
  config_file (self st) ≠ master_key_file (self st) →
  master_key_file (self st) ∉ deny_write (world st) →
  config_file (self st) ∈ deny_write (world st) →
  ∃ c st',
    save_config m st = (inl (PermissionError (config_file (self st))), st')
    ∧ _cipher (self st') = Some c
    ∧ Fernet (generate_key (entropy (world st))) = Some c
    ∧ file_data (world st') (master_key_file (self st))
      = Some (generate_key (entropy (world st)))
    ∧ file_data (world st') (config_file (self st))
      = file_data (world st) (config_file (self st)).
Proof.
  intros Hc Hk Hne Hwk Hwc.
  destruct (get_cipher_create st Hc Hk Hwk) as (c & Hvalid & Hg).
  exists c. eexists. split.
  { rewrite save_config_eq, Hg. simpl. rewrite decide_True; [done|].
    by rewrite (denials_write _ _ (denials_key_created _)). }
  cbn [self world fst snd]. repeat split; try done.
  - rewrite file_data_tick, file_data_key_created. by rewrite decide_True.
  - rewrite file_data_tick, file_data_key_created. by rewrite decide_False.
Qed.

(** X10.  Applying the same update twice stores the mapping that
    applying it once stores. *)
Theorem update_config_idempotent st u st1 st2 :
  key_file_live st →
  config_file (self st) ∉ deny_read (world st) →
  update_config u st = (inr tt, st1) →
  update_config u st1 = (inr tt, st2) →
  ∃ d, load_config st1 = (inr (Some (PDict d)), st1)
       ∧ load_config st2 = (inr (Some (PDict d)), st2).
Proof.
  intros Hlive Hr Hu1 Hu2.
  destruct (update_config_twice _ _ _ _ _ Hlive Hr Hu1 Hu2)
    as (loaded & base & st0 & Hload & Hbase & Hload2).
  destruct (update_config_then_load _ _ _ Hlive Hr Hu1)
    as (loaded' & base' & st0' & Hload' & Hbase' & Hload1).
  rewrite Hload in Hload'. injection Hload' as <- <-.
  rewrite Hbase in Hbase'. injection Hbase' as <-.
  exists (u ∪ base). split; [done|].
  by rewrite Hload2, (assoc_L (∪)), (idemp_L (∪)).
Qed.

(** X11.  Once [_get_cipher] has returned a cipher, it is served from
    memory: every later call on that manager returns the same cipher and
    changes nothing, whatever the files have become. *)
Theorem get_cipher_is_cached st c st1 :
  _get_cipher st = (inr c, st1) →
  ∀ w, _get_cipher (State (self st1) w) = (inr c, State (self st1) w).
Proof.
  intros Hg w. destruct (get_cipher_inv _ _ _ Hg) as [Hs _].
  apply get_cipher_cached. by rewrite Hs.
Qed.
End More.

(** ** The validator *)

Lemma and_not_startswith_false d k prefix :
  and_not_startswith d k prefix = inr false
  ↔ truthy (dict_get d k) = false ∨ field_starts_with d k prefix.
Proof.
  unfold and_not_startswith, field_starts_with, subscript, startswith, dict_get.
  destruct (d !! k) as [[| | |s| |]|] eqn:Hk; simpl;
    try (destruct (truthy _) eqn:Ht; simpl in *);
    try (split; [discriminate|intros [?|(? & ? & ?)]; congruence]);
    try (split; [by left|done]).
  - destruct b; simpl; split; try done; try (intros _; by left);
      intros [?|(? & ? & ?)]; congruence.
  - destruct (n =? 0)%Z; simpl; split; try done; try (intros _; by left);
      intros [?|(? & ? & ?)]; congruence.
  - destruct (String.length s =? 0) eqn:Hl; simpl.
    + split; [by left|done].
    + destruct (String.prefix prefix s) eqn:Hp; simpl.
      * split; [intros _; right; eauto|done].
      * split; [done|intros [?|(? & ? & ?)]; congruence].
  - destruct (length l =? 0); simpl; split; try done; try (intros _; by left);
      intros [?|(? & ? & ?)]; congruence.
  - destruct (size d0 =? 0); simpl; split; try done; try (intros _; by left);
      intros [?|(? & ? & ?)]; congruence.
Qed.

Lemma field_starts_with_truthy d k prefix :
  prefix ≠ EmptyString → field_starts_with d k prefix →
  truthy (dict_get d k) = true.
Proof.
  intros Hne (s & Hk & Hp). unfold dict_get. rewrite Hk. simpl.
  destruct s; [|done]. by destruct prefix.
Qed.

(** X12.  The mappings [validate_setup_data] accepts are exactly those
    with a non-empty [llm_provider], an [openai_api_key] that is a string
    starting with [sk-], a non-empty [groq_api_key] when the provider is
    [groq], and, whenever [groq_api_key] is non-empty, a string starting
    with [gsk_] for it. *)
Theorem validate_setup_data_accepts d :
  validate_setup_data d = inr (true, None)
  ↔ truthy (dict_get d "llm_provider") = true
    ∧ field_starts_with d "openai_api_key" "sk-"
    ∧ (eq_str (dict_get d "llm_provider") "groq" = true →
       truthy (dict_get d "groq_api_key") = true)
    ∧ (truthy (dict_get d "groq_api_key") = true →
       field_starts_with d "groq_api_key" "gsk_").
Proof.
  pose proof (and_not_startswith_false d "openai_api_key" "sk-") as Ho.
  pose proof (and_not_startswith_false d "groq_api_key" "gsk_") as Hg.
  pose proof (field_starts_with_truthy d "openai_api_key" "sk-") as Hto.
  unfold validate_setup_data.
  destruct (truthy (dict_get d "llm_provider")); simpl;
    [|intuition discriminate].
  destruct (eq_str (dict_get d "llm_provider") "groq"),
    (eq_str (dict_get d "llm_provider") "openai"),
    (truthy (dict_get d "groq_api_key")),
    (truthy (dict_get d "openai_api_key")); simpl;
  destruct (and_not_startswith d "openai_api_key" "sk-") as [|[]];
  destruct (and_not_startswith d "groq_api_key" "gsk_") as [|[]];
  intuition (discriminate || congruence).
Qed.

(** X13.  An answer of [validate_setup_data] is valid exactly when it
    carries no message, and a message it carries is one of the six messages
    of the validator. *)
Theorem validate_setup_data_answers d b msg :
  validate_setup_data d = inr (b, msg) →
  (b = true ↔ msg = None)
  ∧ ∀ reason, msg = Some reason → reason ∈ validator_messages.
Proof.
  unfold validate_setup_data, validator_messages.
  repeat (case_match; try done); intros [= <- <-];
    (split; [done|]); intros reason [= <-];
    apply list_elem_of_In; simpl; tauto.
Qed.

(** X14.  [validate_setup_data] raises nothing but [AttributeError],
    and only on a non-empty [openai_api_key] or [groq_api_key] that is not a
    string; when the values of these two fields are strings it always
    answers. *)
Theorem validate_setup_data_raises d :
  (∀ e, validate_setup_data d = inl e →
        e = AttributeError
        ∧ ∃ k, k ∈ ["openai_api_key"; "groq_api_key"]
               ∧ truthy (dict_get d k) = true
               ∧ ∀ s, d !! k ≠ Some (PStr s))
  ∧ ((∀ k v, k ∈ ["openai_api_key"; "groq_api_key"] →
             d !! k = Some v → ∃ s, v = PStr s) →
     ∃ answer, validate_setup_data d = inr answer).
Proof.
  assert (∀ k prefix e, and_not_startswith d k prefix = inl e →
            e = AttributeError ∧ truthy (dict_get d k) = true
            ∧ ∀ s, d !! k ≠ Some (PStr s)) as Hraise.
  { intros k prefix e. unfold and_not_startswith, subscript, startswith, dict_get.
    destruct (d !! k) as [[| | |s| |]|]; simpl; try done;
      case_match; try done; by intros [= <-]. }
  split.
  - intros e. unfold validate_setup_data.
    destruct (and_not_startswith d "openai_api_key" "sk-") as [eo|bo] eqn:Ho;
      destruct (and_not_startswith d "groq_api_key" "gsk_") as [eg|bg] eqn:Hg;
      repeat (case_match; try done); intros [= <-];
      first [ destruct (Hraise _ _ _ Ho) as (-> & ? & ?); split; [done|];
              exists "openai_api_key"; split; [|done];
              apply list_elem_of_In; simpl; by left
            | destruct (Hraise _ _ _ Hg) as (-> & ? & ?); split; [done|];
              exists "groq_api_key"; split; [|done];
              apply list_elem_of_In; simpl; right; by left ].
  - intros Hstr.
    assert (∀ k prefix, k ∈ ["openai_api_key"; "groq_api_key"] →
              ∃ b, and_not_startswith d k prefix = inr b) as Hok.
    { intros k prefix Hk. unfold and_not_startswith, subscript, startswith, dict_get.
      destruct (d !! k) as [v|] eqn:Hv; simpl; [|eauto].
      destruct (Hstr _ _ Hk Hv) as [s ->]. simpl. case_match; eauto. }
    destruct (Hok "openai_api_key" "sk-") as [bo Hbo];
      [apply list_elem_of_In; simpl; by left|].
    destruct (Hok "groq_api_key" "gsk_") as [bg Hbg];
      [apply list_elem_of_In; simpl; right; by left|].
    unfold validate_setup_data. rewrite Hbo, Hbg.
    repeat case_match; eauto.
Qed.

(** ** The application *)

Section AppLemmas.
Context `{FernetLib} `{JsonLib} `{AgentLib}.
Implicit Types (a : app_state) (d : Dict) (st : state).

Lemma app_eta a :
  {| config_manager := config_manager a; agent_app := agent_app a;
     environ := environ a |} = a.
Proof. by destruct a. Qed.

Lemma on_manager_eq {X} (m : M X) a :
  on_manager m a
  = (match (m (config_manager a)).1 with
     | inr x => inr x
     | inl e => inl (Raised e)
     end,
     {| config_manager := (m (config_manager a)).2; agent_app := agent_app a;
        environ := environ a |}).
Proof. unfold on_manager. by destruct (m (config_manager a)) as [[e|x] st]. Qed.

Lemma on_manager_is_configured a :
  on_manager is_configured a = (inr (app_configured a), a).
Proof. rewrite on_manager_eq, is_configured_eq. simpl. by rewrite app_eta. Qed.

Lemma index_eq a :
  index a
  = (inr (if app_configured a then Render "index.html" else Redirect "setup"), a).
Proof.
  unfold index, app_bind. rewrite on_manager_is_configured.
  by destruct (app_configured a).
Qed.

Lemma setup_get_eq j a :
  setup GET j a
  = (inr (if app_configured a then Redirect "index" else Render "setup.html"), a).
Proof.
  unfold setup, app_bind. rewrite on_manager_is_configured.
  by destruct (app_configured a).
Qed.

Lemma setenv_inv k v a r a' :
  setenv k v a = (r, a') →
  config_manager a' = config_manager a
  ∧ agent_app a' = agent_app a
  ∧ (∀ k', k' ≠ k → environ a' !! k' = environ a !! k')
  ∧ (r = inr tt →
     ∃ s, v = PStr s ∧ environ_accepts s = true ∧ environ a' !! k = Some s)
  ∧ (r ≠ inr tt → a' = a).
Proof.
  unfold setenv. destruct v as [| | |s| |]; try (intros [= <- <-]; by repeat split).
  destruct (environ_accepts s) eqn:Hs; intros [= <- <-]; simpl.
  - repeat split; try done.
    + intros k' Hk. by rewrite lookup_insert_ne.
    + intros _. exists s. by rewrite lookup_insert_eq.
  - by repeat split.
Qed.

(** What one conditional assignment to [os.environ] does. *)
Lemma export_one (cond : bool) k v a r a' :
  (if cond then setenv k v else app_ret tt) a = (r, a') →
  config_manager a' = config_manager a
  ∧ agent_app a' = agent_app a
  ∧ (∀ k', k' ≠ k → environ a' !! k' = environ a !! k')
  ∧ (r = inr tt →
     if cond
     then ∃ s, v = PStr s ∧ environ_accepts s = true ∧ environ a' !! k = Some s
     else a' = a).
Proof.
  destruct cond.
  - intros (? & ? & ? & ? & _)%setenv_inv. by repeat split.
  - intros [= <- <-]. by repeat split.
Qed.

Lemma export_keys_frame d a r a' :
  export_keys d a = (r, a') →
  config_manager a' = config_manager a
  ∧ agent_app a' = agent_app a
  ∧ ∀ k, k ≠ "GROQ_API_KEY" → k ≠ "OPENAI_API_KEY" →
         environ a' !! k = environ a !! k.
Proof.
  unfold export_keys, app_bind.
  match goal with
  | |- context [match ?first a with _ => _ end] =>
      destruct (first a) as [[e|[]] a1] eqn:Hfirst
  end.
  - intros [= <- <-]. revert Hfirst.
    repeat case_match; intros Hfirst;
      first [ apply setenv_inv in Hfirst as (? & ? & Hk & _); repeat split;
              try done; intros k ??; by apply Hk
            | by unfold app_ret in Hfirst ].
  - intros Hsecond.
    assert (config_manager a1 = config_manager a ∧ agent_app a1 = agent_app a
            ∧ ∀ k, k ≠ "GROQ_API_KEY" → k ≠ "OPENAI_API_KEY" →
                   environ a1 !! k = environ a !! k) as (Hc1 & Ha1 & He1).
    { revert Hfirst. repeat case_match; intros Hfirst;
        first [ apply setenv_inv in Hfirst as (? & ? & Hk & _); repeat split;
                try done; intros k ??; by apply Hk
              | unfold app_ret in Hfirst; injection Hfirst as <-;
                by repeat split ]. }
    apply export_one in Hsecond as (Hc2 & Ha2 & He2 & _).
    rewrite Hc2, Ha2. repeat split; try done.
    intros k ??. rewrite He2 by done. by apply He1.
Qed.

(** [_initialize_agent_from_config] returns normally, and touches no file. *)
Lemma initialize_inv a :
  ∃ a', _initialize_agent_from_config a = (inr tt, a')
        ∧ (config_manager a' = config_manager a
           ∨ config_manager a' = (load_config (config_manager a)).2)
        ∧ (is_Some (agent_app a) → a' = a)
        ∧ (app_configured a = false → a' = a).
Proof.
  unfold _initialize_agent_from_config, app_bind at 1, get_agent_app.
  destruct (agent_app a) as [g|] eqn:Hg.
  { exists a. repeat split; auto. }
  unfold app_bind at 1. rewrite on_manager_is_configured.
  destruct (app_configured a) eqn:Hconf; simpl.
  2: { exists a. repeat split; auto. }
  unfold app_try, app_bind at 1. rewrite on_manager_eq.
  destruct (load_config (config_manager a)) as [[e|loaded] st1] eqn:Hl; simpl.
  { eexists. split; [done|]. simpl.
    repeat split; first [by auto|by intros [? ?]|done]. }
  unfold app_bind at 1.
  destruct loaded as [[| | | | |d]|]; simpl;
    try (eexists; split; [done|]; simpl;
         repeat split; first [by auto|by intros [? ?]|done]).
  unfold app_bind at 1.
  destruct (export_keys d _) as [[e|[]] a2] eqn:He;
    apply export_keys_frame in He as (Hc2 & Ha2 & _); simpl in *.
  { eexists. split; [done|]. simpl. rewrite Hc2.
    repeat split; first [by auto|by intros [? ?]|done]. }
  unfold app_bind, start.
  destruct (start_agent _ _) as [g|]; simpl;
    (eexists; split; [done|]; simpl; rewrite Hc2;
     repeat split; first [by auto|by intros [? ?]|done]).
Qed.

Lemma initialize_world a :
  world (config_manager (_initialize_agent_from_config a).2)
  = world (config_manager a)
  ∧ config_file (self (config_manager (_initialize_agent_from_config a).2))
    = config_file (self (config_manager a))
  ∧ master_key_file (self (config_manager (_initialize_agent_from_config a).2))
    = master_key_file (self (config_manager a)).
Proof.
  destruct (initialize_inv a) as (a' & Hi & Hc & _). rewrite Hi. simpl.
  destruct Hc as [->| ->]; [done|]. apply load_config_world.
Qed.

Lemma initialize_configured a :
  app_configured (_initialize_agent_from_config a).2 = app_configured a.
Proof.
  destruct (initialize_world a) as (Hw & Hc & Hk).
  unfold app_configured. by rewrite Hw, Hc, Hk.
Qed.

(** The validator accepts only a mapping with a string [openai_api_key]. *)
Lemma accepted_openai_key d :
  validate_setup_data d = inr (true, None) →
  ∃ s, d !! "openai_api_key" = Some (PStr s)
       ∧ truthy (PStr s) = true.
Proof.
  unfold validate_setup_data.
  destruct (truthy (dict_get d "openai_api_key")) eqn:Ht; simpl;
    [|by repeat case_match].
  unfold and_not_startswith at 1. rewrite Ht.
  unfold subscript, startswith. unfold dict_get in Ht.
  destruct (d !! "openai_api_key") as [[| | |s| |]|]; simpl in *;
    try (by repeat case_match).
  intros _. by exists s.
Qed.

Lemma accepted_truthy d :
  validate_setup_data d = inr (true, None) → truthy (PDict d) = true.
Proof.
  intros (s & Hs & _)%accepted_openai_key. simpl.
  destruct (size d =? 0) eqn:Hz; [|done].
  apply Nat.eqb_eq, map_size_empty_iff in Hz. by rewrite Hz in Hs.
Qed.

Lemma validate_setup_data_cases d :
  validate_setup_data d = inl AttributeError
  ∨ validate_setup_data d = inr (true, None)
  ∨ ∃ msg, validate_setup_data d = inr (false, Some msg)
           ∧ msg ∈ validator_messages.
Proof.
  assert (∀ k prefix e, and_not_startswith d k prefix = inl e →
            e = AttributeError) as Hraise.
  { intros k prefix e. unfold and_not_startswith, subscript, startswith, dict_get.
    destruct (d !! k) as [[| | |s| |]|]; simpl; try done;
      case_match; try done; by intros [= <-]. }
  unfold validate_setup_data, validator_messages.
  destruct (and_not_startswith d "openai_api_key" "sk-") as [eo|bo] eqn:Ho;
    destruct (and_not_startswith d "groq_api_key" "gsk_") as [eg|bg] eqn:Hg;
    try rewrite (Hraise _ _ _ Ho); try rewrite (Hraise _ _ _ Hg);
    repeat (case_match; try done); auto;
    right; right; eexists; (split; [done|]);
    apply list_elem_of_In; simpl; tauto.
Qed.

(** A setup POST with data the validator accepts, as far as the save. *)
Lemma setup_post_accepted d a :
  validate_setup_data d = inr (true, None) →
  setup POST (Some (PDict d)) a
  = match on_manager (save_config d) a with
    | (inl e, a1) => (inr (Json (ErrorRaised e) 500), a1)
    | (inr _, a1) =>
        (inr (Json (StatusMessage "success" "Configuration saved") 200),
         (_initialize_agent_from_config a1).2)
    end.
Proof.
  intros Hv. pose proof (accepted_truthy _ Hv) as Ht.
  unfold setup, app_try, app_bind at 1, app_ret at 1.
  rewrite Ht. simpl negb. cbv iota.
  unfold app_bind at 1, from_result, validate_request. rewrite Hv. simpl.
  unfold app_bind at 1, app_ret at 1. unfold app_bind at 1.
  destruct (on_manager (save_config d) a) as [[e|[]] a1]; [done|].
  unfold app_bind.
  destruct (initialize_inv a1) as (a2 & -> & _). done.
Qed.

(** An agent that [_initialize_agent_from_config] has started was started
    from the stored configuration, under the environment it leaves. *)
Lemma initialize_agent a g :
  agent_app a = None →
  agent_app (_initialize_agent_from_config a).2 = Some g →
  app_configured a = true
  ∧ ∃ d, (load_config (config_manager a)).1 = inr (Some (PDict d))
         ∧ start_agent (agent_config d)
             (environ (_initialize_agent_from_config a).2) = Some g.
Proof.
  intros Hg. destruct (_initialize_agent_from_config a) as [r a'] eqn:Hi.
  simpl. revert Hi.
  unfold _initialize_agent_from_config, app_bind at 1, get_agent_app.
  rewrite Hg. unfold app_bind at 1. rewrite on_manager_is_configured.
  destruct (app_configured a) eqn:Hconf; simpl;
    [|intros [= <- <-]; by rewrite Hg].
  unfold app_try, app_bind at 1. rewrite on_manager_eq.
  destruct (load_config (config_manager a)) as [[e|loaded] st1] eqn:Hl; simpl;
    [by intros [= <- <-]|].
  unfold app_bind at 1.
  destruct loaded as [[| | | | |d]|]; simpl; try by intros [= <- <-].
  unfold app_bind at 1.
  destruct (export_keys d _) as [[e|[]] a2] eqn:He; simpl;
    [by intros [= <- <-]|].
  unfold app_bind, start.
  destruct (start_agent _ _) as [g'|] eqn:Hstart; simpl;
    [|by intros [= <- <-]].
  intros [= <- <-]. simpl. intros [= <-]. split; [done|]. by exists d.
Qed.

(** The state a setup POST leaves when it does not get as far as the save. *)
Lemma setup_post_cases j a :
  (∃ body code,
     setup POST j a = (inr (Json body code), a)
     ∧ ((code = 400
         ∧ ∃ msg, body = ErrorMessage (Some msg)
                  ∧ (msg = "No JSON data provided" ∨ msg ∈ validator_messages))
        ∨ (code = 500
           ∧ (body = ErrorRaised BadRequest ∧ j = None
              ∨ body = ErrorRaised (Raised AttributeError)))))
  ∨ (∃ d, j = Some (PDict d) ∧ validate_setup_data d = inr (true, None)).
Proof.
  destruct j as [data|]; cycle 1.
  { left. do 2 eexists. split; [done|]. right. auto. }
  destruct (truthy data) eqn:Ht; cycle 1.
  { left. do 2 eexists. split.
    { unfold setup, app_try, app_bind, app_ret. by rewrite Ht. }
    left. split; eauto. }
  destruct data as [| | | | |d];
    try (left; do 2 eexists; split;
         [unfold setup, app_try, app_bind, app_ret; by rewrite Ht
         |right; auto]).
  destruct (validate_setup_data_cases d) as [Hv|[Hv|(msg & Hv & Hmsg)]].
  - left. do 2 eexists. split.
    { unfold setup, app_try, app_bind at 1, app_ret at 1. rewrite Ht.
      simpl negb. cbv iota. unfold app_bind, from_result, validate_request.
      by rewrite Hv. }
    right. auto.
  - right. eauto.
  - left. do 2 eexists. split.
    { unfold setup, app_try, app_bind at 1, app_ret at 1. rewrite Ht.
      simpl negb. cbv iota. unfold app_bind, from_result, validate_request.
      by rewrite Hv. }
    left. split; eauto.
Qed.

Lemma agent_gate_eq a :
  agent_gate a
  = if app_configured a
    then (inr match agent_app (_initialize_agent_from_config a).2 with
              | None => inl (Json (ErrorMessage
                  (Some "Agent initialization failed. Please check configuration."))
                  500)
              | Some agent => inr agent
              end,
          (_initialize_agent_from_config a).2)
    else (inr (inl (Json (ErrorMessage
            (Some "Service not configured. Please complete setup first.")) 503)),
          a).
Proof.
  unfold agent_gate, app_bind at 1. rewrite on_manager_is_configured.
  destruct (app_configured a); simpl; [|done].
  unfold app_bind, get_agent_app, app_ret.
  destruct (initialize_inv a) as (a' & -> & _). simpl.
  by destruct (agent_app a').
Qed.

Lemma reset_config_eq a :
  reset_config a
  = (inr match (delete_config (config_manager a)).1 with
         | inr _ => Json (StatusMessage "success" "Configuration reset") 200
         | inl e => Json (ErrorRaised (Raised e)) 500
         end,
     {| config_manager := (delete_config (config_manager a)).2;
        agent_app := agent_app a; environ := environ a |}).
Proof.
  unfold reset_config, app_try, app_bind. rewrite on_manager_eq.
  by destruct (delete_config (config_manager a)) as [[e|[]] st'].
Qed.

Lemma delete_config_not_configured st st' :
  delete_config st = (inr tt, st') →
  file_exists (world st') (config_file (self st'))
  && file_exists (world st') (master_key_file (self st')) = false.
Proof.
  intros [Hs Hw]%delete_config_inv. rewrite Hs, Hw, !file_exists_w_unlink.
  rewrite (bool_decide_eq_false_2
             (master_key_file (self st) ≠ master_key_file (self st))) by auto.
  by rewrite andb_false_r.
Qed.

(** A setup POST whose save succeeds, on a manager whose next load leaves
    its state as it is. *)
Lemma setup_post_saved a d st' :
  validate_setup_data d = inr (true, None) →
  save_config d (config_manager a) = (inr tt, st') →
  (load_config st').2 = st' →
  setup POST (Some (PDict d)) a
  = (inr (Json (StatusMessage "success" "Configuration saved") 200),
     (_initialize_agent_from_config
        {| config_manager := st'; agent_app := agent_app a;
           environ := environ a |}).2)
  ∧ config_manager
      (_initialize_agent_from_config
         {| config_manager := st'; agent_app := agent_app a;
            environ := environ a |}).2 = st'.
Proof.
  intros Hv Hsave Hload.
  rewrite (setup_post_accepted _ _ Hv), on_manager_eq, Hsave. simpl.
  split; [done|].
  destruct (initialize_inv
    {| config_manager := st'; agent_app := agent_app a; environ := environ a |})
    as (a' & Hi & Hc & _).
  rewrite Hi. simpl. simpl in Hc. destruct Hc as [->| ->]; done.
Qed.

Lemma dict_get_str d k s : dict_get d k = PStr s → d !! k = Some (PStr s).
Proof. unfold dict_get. destruct (d !! k); simpl; by intros; simplify_eq. Qed.

End AppLemmas.

Section AppTheorems.
Context `{FernetLib} `{JsonLib} `{AgentLib}.
Implicit Types (a : app_state) (d : Dict) (st : state).


(** X16.  The answers of a POST to [setup] (a HEAD request runs the
    same code).  It never raises.  It answers 400 with a fixed message or one
    of the validator's, and then nothing has changed; or 500 for a request
    without JSON or data the validator cannot read, and then nothing has
    changed either; or 500 with the error of a [save_config] that raised; or
    200, and then the data is a mapping the validator accepts, [save_config]
    has succeeded on it, and the files are as that save left them. *)
Theorem setup_post_answers a j :
  setup HEAD j a = setup POST j a
  ∧ ∃ body code a',
      setup POST j a = (inr (Json body code), a')
      ∧ ((code = 400 ∧ a' = a
          ∧ ∃ msg, body = ErrorMessage (Some msg)
                   ∧ (msg = "No JSON data provided" ∨ msg ∈ validator_messages))
         ∨ (code = 500 ∧ a' = a
            ∧ (body = ErrorRaised BadRequest ∧ j = None
               ∨ body = ErrorRaised (Raised AttributeError)))
         ∨ (∃ d e st',
              code = 500 ∧ j = Some (PDict d)
              ∧ validate_setup_data d = inr (true, None)
              ∧ save_config d (config_manager a) = (inl e, st')
              ∧ body = ErrorRaised (Raised e)
              ∧ config_manager a' = st')
         ∨ (∃ d st',
              code = 200 ∧ j = Some (PDict d)
              ∧ validate_setup_data d = inr (true, None)
              ∧ save_config d (config_manager a) = (inr tt, st')
              ∧ body = StatusMessage "success" "Configuration saved"
              ∧ world (config_manager a') = world st')).
Proof.
  split; [done|].
  destruct (setup_post_cases j a)
    as [(body & code & Hrun & Hcases)|(d & -> & Hv)].
  { exists body, code, a. split; [done|].
    destruct Hcases as [[-> ?]|[-> ?]]; [left|right; left]; auto. }
  rewrite (setup_post_accepted _ _ Hv), on_manager_eq.
  destruct (save_config d (config_manager a)) as [[e|[]] st'] eqn:Hs; simpl.
  - do 3 eexists. split; [done|]. right; right; left.
    exists d, e, st'. by repeat split.
  - do 3 eexists. split; [done|]. right; right; right.
    exists d, st'. repeat split; try done.
    by destruct (initialize_world
      {| config_manager := st'; agent_app := agent_app a;
         environ := environ a |}) as [-> _].
Qed.

(** X17.  The answers of [reset_config].  It never raises and leaves
    the running agent and the environment alone.  It answers 200 when
    [delete_config] succeeded, and then [index] redirects to the setup page
    and [chat] and [poster] answer 503; or 500 with the [OSError] that
    [delete_config] raised. *)
Theorem reset_config_answers a :
  ∃ body code a',
    reset_config a = (inr (Json body code), a')
    ∧ agent_app a' = agent_app a
    ∧ environ a' = environ a
    ∧ ((code = 200
        ∧ body = StatusMessage "success" "Configuration reset"
        ∧ delete_config (config_manager a) = (inr tt, config_manager a')
        ∧ index a' = (inr (Redirect "setup"), a')
        ∧ agent_gate a'
          = (inr (inl (Json (ErrorMessage
               (Some "Service not configured. Please complete setup first."))
               503)), a'))
       ∨ (code = 500
          ∧ ∃ e, delete_config (config_manager a) = (inl e, config_manager a')
                 ∧ body = ErrorRaised (Raised e)
                 ∧ kind_of e = OSError)).
Proof.
  rewrite reset_config_eq.
  destruct (delete_config (config_manager a)) as [[e|[]] st'] eqn:Hd; simpl.
  - do 3 eexists. split; [done|]. simpl. repeat split. right. split; [done|].
    exists e. repeat split.
    by destruct (delete_config_raises _ _ _ Hd) as [->| ->].
  - do 3 eexists. split; [done|]. simpl. repeat split. left.
    pose proof (delete_config_not_configured _ _ Hd) as Hconf.
    repeat split.
    + rewrite index_eq. unfold app_configured. simpl. by rewrite Hconf.
    + rewrite agent_gate_eq. unfold app_configured. simpl. by rewrite Hconf.
Qed.

(** X18.  A running agent is kept.  While [agent_app] holds an agent,
    [_initialize_agent_from_config] does nothing, no request to [setup]
    replaces the agent or changes the environment (so a configuration saved
    now does not reach the agent), [reset_config] does not stop it, and
    [chat] and [poster] go on with it as long as the manager is
    configured. *)
Theorem running_agent_kept a g :
  agent_app a = Some g →
  _initialize_agent_from_config a = (inr tt, a)
  ∧ (∀ method j, agent_app (setup method j a).2 = Some g
                 ∧ environ (setup method j a).2 = environ a)
  ∧ agent_app (reset_config a).2 = Some g
  ∧ (app_configured a = true → agent_gate a = (inr (inr g), a)).
Proof.
  intros Hg.
  assert (∀ st, _initialize_agent_from_config
                  {| config_manager := st; agent_app := agent_app a;
                     environ := environ a |}
                = (inr tt, {| config_manager := st; agent_app := agent_app a;
                              environ := environ a |})) as Hinit.
  { intros st. destruct (initialize_inv
      {| config_manager := st; agent_app := agent_app a; environ := environ a |})
      as (a' & Hi & _ & Hsame & _).
    rewrite Hi, Hsame; [done|]. simpl. by rewrite Hg. }
  assert (_initialize_agent_from_config a = (inr tt, a)) as Hinit'.
  { specialize (Hinit (config_manager a)). by rewrite app_eta in Hinit. }
  split; [done|]. split; [|split].
  - intros method j.
    assert (agent_app (setup POST j a).2 = Some g
            ∧ environ (setup POST j a).2 = environ a) as Hpost.
    { destruct (setup_post_cases j a)
        as [(body & code & -> & _)|(d & -> & Hv)]; [simpl; by split|].
      rewrite (setup_post_accepted _ _ Hv), on_manager_eq.
      destruct (save_config d (config_manager a)) as [[e|[]] st']; simpl;
        [by split|].
      rewrite Hinit. simpl. by split. }
    destruct method; [|done..].
    rewrite setup_get_eq. simpl. by split.
  - by rewrite reset_config_eq.
  - intros Hconf. rewrite agent_gate_eq, Hconf, Hinit'. simpl. by rewrite Hg.
Qed.

(** X19.  A first setup.  On a manager with no cached cipher and no
    key file, in a directory where the two files may be written and the
    configuration file read, a POST to [setup] with data the validator
    accepts answers 200; afterwards [index] renders the main page,
    [load_config] returns the data, and an agent that was started was
    started from that data under the environment the request left. *)
Theorem first_setup_succeeds a d :
  validate_setup_data d = inr (true, None) →
  _cipher (self (config_manager a)) = None →
  file_exists (world (config_manager a))
    (master_key_file (self (config_manager a))) = false →
  master_key_file (self (config_manager a))
    ∉ deny_write (world (config_manager a)) →
  config_file (self (config_manager a))
    ∉ deny_write (world (config_manager a)) →
  config_file (self (config_manager a))
    ∉ deny_read (world (config_manager a)) →
  ∃ a',
    setup POST (Some (PDict d)) a
    = (inr (Json (StatusMessage "success" "Configuration saved") 200), a')
    ∧ index a' = (inr (Render "index.html"), a')
    ∧ load_config (config_manager a')
      = (inr (Some (PDict d)), config_manager a')
    ∧ (agent_app a = None → ∀ g, agent_app a' = Some g →
       start_agent (agent_config d) (environ a') = Some g).
Proof.
  intros Hv Hc Hk Hwk Hwc Hrc.
  destruct (first_save_then_load _ d Hc Hk Hwk Hwc Hrc)
    as (st' & Hsave & Hconf & Hload).
  destruct (setup_post_saved a d st' Hv Hsave) as [Hrun Hcm].
  { by rewrite Hload. }
  eexists. split; [exact Hrun|].
  rewrite is_configured_eq in Hconf. injection Hconf as Hconf.
  split; [|split].
  - rewrite index_eq. unfold app_configured. by rewrite Hcm, Hconf.
  - by rewrite Hcm.
  - intros Hnone g Hg.
    destruct (initialize_agent
                {| config_manager := st'; agent_app := agent_app a;
                   environ := environ a |} g Hnone Hg)
      as (_ & d' & Hd' & Hstart).
    simpl in Hd'. rewrite Hload in Hd'. by injection Hd' as <-.
Qed.

(** X20.  The keys [_initialize_agent_from_config] exports.  When the
    configuration has a non-empty [openai_api_key] (as every configuration
    the validator accepts has) and the export succeeds, [OPENAI_API_KEY]
    ends as that key, whatever [llm_provider] and [openai_llm_api_key] are;
    [GROQ_API_KEY] is unchanged or is the [groq_api_key] of a configuration
    whose provider is [groq]; no other variable changes. *)
Theorem export_keys_openai_key d a a' :
  truthy (dict_get d "openai_api_key") = true →
  export_keys d a = (inr tt, a') →
  (∃ s, d !! "openai_api_key" = Some (PStr s)
        ∧ environ a' !! "OPENAI_API_KEY" = Some s)
  ∧ (environ a' !! "GROQ_API_KEY" = environ a !! "GROQ_API_KEY"
     ∨ (eq_str (dict_get_default d "llm_provider" (PStr "groq")) "groq" = true
        ∧ ∃ s, d !! "groq_api_key" = Some (PStr s)
               ∧ environ a' !! "GROQ_API_KEY" = Some s))
  ∧ (∀ k, k ≠ "GROQ_API_KEY" → k ≠ "OPENAI_API_KEY" →
          environ a' !! k = environ a !! k).
Proof.
  intros Ht Hrun. split; [|split].
  - revert Hrun. unfold export_keys, app_bind.
    match goal with
    | |- context [match ?first a with _ => _ end] =>
        destruct (first a) as [[e|[]] a1]; [done|]
    end.
    rewrite Ht. intros (_ & _ & _ & Hset & _)%setenv_inv.
    destruct Hset as (s & Hs & _ & Hlook); [done|].
    exists s. split; [by apply dict_get_str|done].
  - revert Hrun. unfold export_keys, app_bind.
    match goal with
    | |- context [match ?first a with _ => _ end] =>
        destruct (first a) as [[e|[]] a1] eqn:Hfirst; [done|]
    end.
    rewrite Ht. intros (_ & _ & Hother & _)%setenv_inv.
    rewrite Hother by done.
    destruct (eq_str (dict_get_default d "llm_provider" (PStr "groq")) "groq").
    + destruct (truthy (dict_get d "groq_api_key")).
      * apply setenv_inv in Hfirst as (_ & _ & _ & Hset & _).
        destruct Hset as (s & Hs & _ & Hlook); [done|].
        right. split; [done|]. exists s. split; [by apply dict_get_str|done].
      * injection Hfirst as <-. by left.
    + left. revert Hfirst. repeat case_match; intros Hfirst;
        first [ apply setenv_inv in Hfirst as (_ & _ & Hk & _); by apply Hk
              | by injection Hfirst as <- ].
  - by destruct (export_keys_frame _ _ _ _ Hrun) as (_ & _ & ?).
Qed.

(** X21.  Setup, reset and setup again through the handlers of a
    newly started application.  The three requests answer 200 and the second
    setup writes the configuration file, but not the key file: afterwards
    [index] redirects to the setup page and [chat] and [poster] answer
    503. *)
Theorem setup_reset_setup_not_configured a d1 d2 :
  config_manager a = st_init →
  validate_setup_data d1 = inr (true, None) →
  validate_setup_data d2 = inr (true, None) →
  ∃ a1 a2 a3,
    setup POST (Some (PDict d1)) a
    = (inr (Json (StatusMessage "success" "Configuration saved") 200), a1)
    ∧ index a1 = (inr (Render "index.html"), a1)
    ∧ reset_config a1
      = (inr (Json (StatusMessage "success" "Configuration reset") 200), a2)
    ∧ setup POST (Some (PDict d2)) a2
      = (inr (Json (StatusMessage "success" "Configuration saved") 200), a3)
    ∧ file_exists (world (config_manager a3)) default_config_file = true
    ∧ file_exists (world (config_manager a3)) default_master_key_file = false
    ∧ index a3 = (inr (Redirect "setup"), a3)
    ∧ agent_gate a3
      = (inr (inl (Json (ErrorMessage
           (Some "Service not configured. Please complete setup first."))
           503)), a3).
Proof.
  intros Hinit Hv1 Hv2.
  destruct (setup_then_reset d1) as (st2 & Hrun & Hlost & Hcf & Hkf & _ & Hden).
  unfold bind in Hrun.
  destruct (save_config d1 st_init) as [[e|[]] st1] eqn:Hsave1; [done|].
  assert (load_config st1 = (inr (Some (PDict d1)), st1)) as Hload1.
  { apply (save_load_roundtrip st_init d1 st1); [by left| |done].
    apply not_elem_of_empty. }
  assert (is_configured st1 = (inr true, st1)) as Hconf1.
  { apply (save_config_configured st_init d1 st1); [by left|done]. }
  rewrite is_configured_eq in Hconf1. injection Hconf1 as Hconf1.
  destruct (setup_post_saved a d1 st1 Hv1) as [Hrun1 Hcm1].
  { by rewrite Hinit. }
  { by rewrite Hload1. }
  set (a1 := (_initialize_agent_from_config
                {| config_manager := st1; agent_app := agent_app a;
                   environ := environ a |}).2) in *.
  destruct (save_config_key_file_lost st2 d2 Hlost)
    as (c & st3 & _ & Hsave2 & Hs3 & Hw3 & Hlost3).
  { by rewrite (denials_write _ _ Hden). }
  set (a2 := {| config_manager := st2; agent_app := agent_app a1;
                environ := environ a1 |}).
  destruct (setup_post_saved a2 d2 st3 Hv2 Hsave2) as [Hrun2 Hcm2].
  { by rewrite (key_file_lost_load _ Hlost3). }
  set (a3 := (_initialize_agent_from_config
                {| config_manager := st3; agent_app := agent_app a2;
                   environ := environ a2 |}).2) in *.
  pose proof (key_file_lost_not_configured _ Hlost3) as Hconf3.
  rewrite is_configured_eq in Hconf3. injection Hconf3 as Hconf3.
  destruct Hlost3 as (_ & Hk3 & _).
  assert (file_exists (world st3) default_config_file = true) as Hc3.
  { rewrite Hw3. eapply file_exists_Some.
    rewrite file_data_config_written, Hcf. by rewrite decide_True. }
  exists a1, a2, a3. repeat split.
  - exact Hrun1.
  - rewrite index_eq. unfold app_configured. by rewrite Hcm1, Hconf1.
  - rewrite reset_config_eq, Hcm1, Hrun. done.
  - exact Hrun2.
  - by rewrite Hcm2.
  - by rewrite Hcm2, <-Hkf, <-Hs3.
  - rewrite index_eq. unfold app_configured. by rewrite Hcm2, Hconf3.
  - rewrite agent_gate_eq. unfold app_configured. by rewrite Hcm2, Hconf3.
Qed.

(** X22.  The agent is started once.  When the first lines of [chat]
    or [poster] have gone on with an agent, the next request goes on with
    the same agent and changes nothing; the first one changed no file. *)
Theorem agent_gate_reuses a g a' :
  agent_gate a = (inr (inr g), a') →
  agent_gate a' = (inr (inr g), a')
  ∧ world (config_manager a') = world (config_manager a).
Proof.
  rewrite agent_gate_eq.
  destruct (app_configured a) eqn:Hconf; [|done].
  destruct (agent_app (_initialize_agent_from_config a).2) as [g'|] eqn:Hag;
    [|done].
  intros [= -> <-]. split; [|apply initialize_world].
  rewrite agent_gate_eq, initialize_configured, Hconf.
  destruct (initialize_inv (_initialize_agent_from_config a).2)
    as (a'' & Hi & _ & Hsame & _).
  rewrite Hi. simpl. rewrite Hsame by (rewrite Hag; eauto).
  by rewrite Hag.
Qed.


End AppTheorems.

(** ** The poster history and the path resolver *)

(** X24.  The poster history is bounded.  On a session whose
    [poster_history] is absent or a list, [poster] stores the new state as
    [poster_state] and leaves as history the last two entries of the old
    one followed by the new state, at most three entries; the other keys of
    the session are untouched. *)
Theorem record_poster_bounded poster_state session l :
  session !! "poster_history" = Some (PList l)
  ∨ (session !! "poster_history" = None ∧ l = []) →
  ∃ session' l',
    record_poster poster_state session = (inr tt, session')
    ∧ session' !! "poster_state" = Some poster_state
    ∧ session' !! "poster_history" = Some (PList l')
    ∧ l' = drop (length l - 2) l ++ [poster_state]
    ∧ length l' = (length l + 1) `min` 3
    ∧ ∀ k, k ≠ "poster_state" → k ≠ "poster_history" →
           session' !! k = session !! k.
Proof.
  intros Hhist.
  assert (∀ s0 : gmap string pyval,
            s0 !! "poster_state" = Some poster_state →
            ∃ session' l',
              (if 3 <? length (l ++ [poster_state])
               then (inr tt,
                     <["poster_history" :=
                         PList (drop (length (l ++ [poster_state]) - 3)
                                  (l ++ [poster_state]))]>
                       (<["poster_history" := PList (l ++ [poster_state])]> s0))
               else (inr tt,
                     <["poster_history" := PList (l ++ [poster_state])]> s0))
              = (@inr exn unit tt, session')
              ∧ session' !! "poster_state" = Some poster_state
              ∧ session' !! "poster_history" = Some (PList l')
              ∧ l' = drop (length l - 2) l ++ [poster_state]
              ∧ length l' = (length l + 1) `min` 3
              ∧ ∀ k, k ≠ "poster_state" → k ≠ "poster_history" →
                     session' !! k = s0 !! k) as Hfin.
  { intros s0 Hs0.
    assert (length (drop (length l - 2) l ++ [poster_state])
            = (length l + 1) `min` 3) as Hlen.
    { rewrite length_app, length_drop. simpl. lia. }
    destruct (3 <? length (l ++ [poster_state])) eqn:Hcut.
    - apply Nat.ltb_lt in Hcut. rewrite length_app in Hcut. simpl in Hcut.
      do 2 eexists. split; [done|]. rewrite length_app. simpl.
      replace (length l + 1 - 3) with (length l - 2) by lia.
      rewrite drop_app_le by lia.
      split; [by rewrite !lookup_insert_ne|].
      split; [by rewrite lookup_insert_eq|].
      repeat split; try done.
      intros k ? ?. by rewrite !lookup_insert_ne.
    - apply Nat.ltb_ge in Hcut. rewrite length_app in Hcut. simpl in Hcut.
      replace (length l - 2) with 0 in * by lia. rewrite drop_0 in *.
      do 2 eexists. split; [done|].
      split; [by rewrite !lookup_insert_ne|].
      split; [by rewrite lookup_insert_eq|].
      repeat split; try done.
      intros k ? ?. by rewrite !lookup_insert_ne. }
  unfold record_poster. cbv zeta.
  rewrite (lookup_insert_ne session "poster_state" "poster_history") by done.
  destruct Hhist as [Hh|[Hh ->]]; rewrite Hh.
  - rewrite lookup_insert_ne, Hh by done.
    destruct (Hfin (<["poster_state":=poster_state]> session))
      as (session' & l' & Hrun & Hps & Hph & Hl' & Hlen & Hk).
    { by rewrite lookup_insert_eq. }
    exists session', l'. repeat split; try done.
    intros k ? ?. rewrite Hk by done. by rewrite lookup_insert_ne.
  - rewrite lookup_insert_eq.
    destruct (Hfin (<["poster_history":=PList []]>
                      (<["poster_state":=poster_state]> session)))
      as (session' & l' & Hrun & Hps & Hph & Hl' & Hlen & Hk).
    { by rewrite lookup_insert_ne, lookup_insert_eq. }
    exists session', l'. repeat split; try done.
    intros k ? ?. rewrite Hk by done. by rewrite !lookup_insert_ne.
Qed.

Section ResolverTheorems.
Context `{PathLib}.
Implicit Types (fs : gset (list string)) (r : ServicePathResolver).

Lemma resolve_cached_eq fs r p :
  _resolved_path r = Some p → resolve fs r = (inr (Some p), r).
Proof. intros Hp. unfold resolve. by rewrite Hp. Qed.

Lemma resolve_pathlib_inv fs r res r' :
  resolve_pathlib fs r = (res, r') →
  match res with
  | inr (Some p) =>
      r' = cache p r
      ∧ ∃ f c, resolve_file (_base_file r) = inr f
               ∧ (c = service_src (parent (parent f))
                  ∨ (c = service_src (parent f)
                     ∧ service_src (parent (parent f)) ∉ fs))
               ∧ c ∈ fs ∧ resolve_path c = inr p
  | inr None =>
      r' = r
      ∧ ∃ f, resolve_file (_base_file r) = inr f
             ∧ (service_src (parent (parent f)) ∉ fs)
             ∧ (service_src (parent f) ∉ fs)
  | inl e =>
      r' = r
      ∧ (resolve_file (_base_file r) = inl e
         ∨ ∃ f c, resolve_file (_base_file r) = inr f
                  ∧ c ∈ fs ∧ resolve_path c = inl e)
  end.
Proof.
  unfold resolve_pathlib.
  destruct (resolve_file (_base_file r)) as [e|f] eqn:Hf.
  { intros [= <- <-]. auto. }
  destruct (bool_decide (service_src (parent (parent f)) ∈ fs)) eqn:H1; simpl.
  - rewrite H1. apply bool_decide_eq_true in H1.
    destruct (resolve_path _) as [e|p] eqn:Hp; intros [= <- <-];
      (split; [done|]); [right|]; eauto 10.
  - apply bool_decide_eq_false in H1.
    destruct (bool_decide (service_src (parent f) ∈ fs)) eqn:H2.
    + apply bool_decide_eq_true in H2.
      destruct (resolve_path _) as [e|p] eqn:Hp; intros [= <- <-];
        (split; [done|]); [right|]; eauto 10.
    + apply bool_decide_eq_false in H2. intros [= <- <-]. eauto.
Qed.

Lemma resolve_os_path_inv fs r found r' :
  resolve_os_path fs r = (found, r') →
  match found with
  | Some p =>
      r' = cache p r ∧ p ∈ fs
      ∧ (p = service_src (parent (parent (abspath (_base_file r))))
         ∨ (p = service_src (parent (abspath (_base_file r)))
            ∧ service_src (parent (parent (abspath (_base_file r)))) ∉ fs))
  | None =>
      r' = r
      ∧ (service_src (parent (parent (abspath (_base_file r)))) ∉ fs)
      ∧ (service_src (parent (abspath (_base_file r))) ∉ fs)
  end.
Proof.
  unfold resolve_os_path.
  destruct (bool_decide (service_src (parent (parent _)) ∈ fs)) eqn:H1; simpl.
  - rewrite H1. apply bool_decide_eq_true in H1. intros [= <- <-]. auto.
  - apply bool_decide_eq_false in H1.
    destruct (bool_decide (service_src (parent _) ∈ fs)) eqn:H2.
    + apply bool_decide_eq_true in H2. intros [= <- <-]. auto.
    + apply bool_decide_eq_false in H2. by intros [= <- <-].
Qed.

Lemma resolve_inv fs r found r' :
  resolve fs r = (inr found, r') →
  _base_file r' = _base_file r
  ∧ match found with
    | Some p => _resolved_path r' = Some p
    | None => r' = r ∧ _resolved_path r = None
    end.
Proof.
  unfold resolve. destruct (_resolved_path r) as [p|] eqn:Hc.
  { by intros [= <- <-]. }
  destruct (resolve_pathlib fs r) as [[e|found'] r1] eqn:Hp;
    apply resolve_pathlib_inv in Hp.
  - destruct Hp as [-> _].
    destruct (resolve_os_path fs r) as [found' r2] eqn:Ho.
    apply resolve_os_path_inv in Ho.
    destruct (kind_of e); try done; intros [= <- <-];
      (destruct found' as [p|];
       [by destruct Ho as (-> & _)|by destruct Ho as (-> & _)]).
  - intros [= <- <-]. destruct found' as [p|].
    + by destruct Hp as (-> & _).
    + by destruct Hp as (-> & _).
Qed.

(** X25.  What [resolve] remembers.  A path it has returned is
    returned by every later call, whatever directories exist then; a failed
    search leaves the resolver as it was, so the next call searches
    again. *)
Theorem resolve_caches fs r found r' :
  resolve fs r = (inr found, r') →
  _base_file r' = _base_file r
  ∧ match found with
    | Some p => ∀ fs', resolve fs' r' = (inr (Some p), r')
    | None => r' = r ∧ ∀ fs', resolve fs' r' = resolve fs' r
    end.
Proof.
  intros [Hb Hc]%resolve_inv. split; [done|]. destruct found as [p|].
  - intros fs'. by apply resolve_cached_eq.
  - by destruct Hc as [-> _].
Qed.

(** X26.  A path that [resolve] returns from a search is that of a
    directory that existed: the sibling [movie-agent-service/src] of the
    directory of the base file, or the one inside that directory when the
    sibling is missing; resolved by [pathlib], or taken from [os.path] after
    an [OSError] or [ValueError] of [pathlib]. *)
Theorem resolve_finds_existing fs r p r' :
  _resolved_path r = None →
  resolve fs r = (inr (Some p), r') →
  (∃ f c, resolve_file (_base_file r) = inr f
          ∧ (c = service_src (parent (parent f))
             ∨ (c = service_src (parent f)
                ∧ service_src (parent (parent f)) ∉ fs))
          ∧ c ∈ fs ∧ resolve_path c = inr p)
  ∨ (p ∈ fs
     ∧ (p = service_src (parent (parent (abspath (_base_file r))))
        ∨ (p = service_src (parent (abspath (_base_file r)))
           ∧ service_src (parent (parent (abspath (_base_file r)))) ∉ fs))
     ∧ ∃ e, (kind_of e = OSError ∨ kind_of e = ValueError)
            ∧ (resolve_file (_base_file r) = inl e
               ∨ ∃ f c, resolve_file (_base_file r) = inr f
                        ∧ c ∈ fs ∧ resolve_path c = inl e)).
Proof.
  intros Hc. unfold resolve. rewrite Hc.
  destruct (resolve_pathlib fs r) as [[e|found'] r1] eqn:Hp;
    apply resolve_pathlib_inv in Hp.
  - destruct Hp as [-> Hwhy].
    destruct (resolve_os_path fs r) as [found' r2] eqn:Ho.
    apply resolve_os_path_inv in Ho.
    destruct (kind_of e) eqn:Hkind; try done; intros [= -> <-];
      destruct Ho as (_ & Hin & Hwhich); right;
      (split; [done|]); (split; [done|]); exists e; auto.
  - intros [= -> <-]. destruct Hp as (_ & f & c & ?). left. eauto.
Qed.

(** X27.  [add_to_sys_path] returns [True] exactly when [resolve]
    finds the directory, and then puts it in front of [sys.path]; a second
    call puts it there a second time.  When it returns [False], nothing has
    changed. *)
Theorem add_to_sys_path_spec fs r sys_path b r' sys_path' :
  add_to_sys_path fs r sys_path = (inr b, r', sys_path') →
  (b = true
   ∧ ∃ p, resolve fs r = (inr (Some p), r')
          ∧ sys_path' = path_str p :: sys_path
          ∧ ∀ fs', add_to_sys_path fs' r' sys_path'
                   = (inr true, r', path_str p :: path_str p :: sys_path))
  ∨ (b = false ∧ r' = r ∧ sys_path' = sys_path
     ∧ resolve fs r = (inr None, r)).
Proof.
  unfold add_to_sys_path.
  destruct (resolve fs r) as [[e|[p|]] r1] eqn:Hr; [done| |];
    intros [= <- <- <-].
  - left. split; [done|]. exists p. repeat split.
    intros fs'. destruct (resolve_inv _ _ _ _ Hr) as [_ Hc].
    by rewrite (resolve_cached_eq _ _ _ Hc).
  - right. destruct (resolve_inv _ _ _ _ Hr) as [_ [-> _]].
    by repeat split.
Qed.

End ResolverTheorems.

(** * The sample libraries, and the theorems on concrete inputs *)

(** ** The sample cipher and codec obey the interfaces' laws *)

Lemma xor_ascii_involutive k a : xor_ascii k (xor_ascii k a) = a.
Proof.
  destruct k, a; simpl.
  by rewrite <-!xorb_assoc, !xorb_nilpotent, !xorb_false_l.
Qed.

Lemma xor_string_involutive k s : xor_string k (xor_string k s) = s.
Proof. induction s; simpl; [done|]. by rewrite xor_ascii_involutive, IHs. Qed.

Lemma sample_decrypt_encrypt key r plain :
  sample_decrypt key (sample_encrypt key r plain) = Some plain.
Proof.
  unfold sample_decrypt, sample_encrypt.
  by rewrite Ascii.eqb_refl, xor_string_involutive.
Qed.

Lemma sample_generate_key_valid r : is_Some (sample_Fernet (sample_generate_key r)).
Proof. by eexists. Qed.

Lemma digits_pos_digits p : digits_pos (pos_digits p) = Some p.
Proof. induction p; simpl; by rewrite ?IHp. Qed.

Lemma sum_list_elem (n : nat) l : n ∈ l → n ≤ sum_list l.
Proof. induction 1; simpl; lia. Qed.

Lemma pysize_list_elem v l : v ∈ l → pysize v < pysize (PList l).
Proof.
  intros Hin. simpl. apply Nat.lt_succ_r.
  induction Hin; csimpl; lia.
Qed.

Lemma pysize_dict_elem k v (d : gmap string pyval) :
  d !! k = Some v → pysize v < pysize (PDict d).
Proof.
  intros Hk. simpl. apply Nat.lt_succ_r, sum_list_elem.
  apply list_elem_of_fmap. exists (k, pysize v). split; [done|].
  apply elem_of_map_to_list. by rewrite lookup_fmap, Hk.
Qed.

Lemma of_to_tree v : of_tree (to_tree v) = v.
Proof.
  remember (pysize v) as n eqn:Hn.
  revert v Hn. induction (lt_wf n) as [n _ IH]. intros v ->.
  destruct v as [| | | |l|d]; simpl; try done.
  - f_equal. rewrite <-list_fmap_compose.
    rewrite <-(list_fmap_id l) at 2. apply list_fmap_ext.
    intros i v Hv. simpl. eapply IH; [|done].
    apply pysize_list_elem. by eapply list_elem_of_lookup_2.
  - assert (∀ k v, d !! k = Some v → of_tree (to_tree v) = v) as Hrt.
    { intros k v Hk. eapply IH; [|done]. by eapply pysize_dict_elem. }
    f_equal. rewrite <-list_fmap_compose.
    apply map_eq. intros k. apply option_eq. intros v.
    rewrite <-elem_of_list_to_map.
    + rewrite list_elem_of_fmap. split.
      * intros ([k' t] & Heq & Hin). simpl in Heq.
        apply elem_of_map_to_list in Hin. rewrite lookup_fmap in Hin.
        destruct (d !! k') as [v'|] eqn:Hk'; simplify_eq/=.
        by rewrite (Hrt _ _ Hk').
      * intros Hk. exists (k, to_tree v). split.
        -- simpl. by rewrite (Hrt _ _ Hk).
        -- apply elem_of_map_to_list. by rewrite lookup_fmap, Hk.
    + rewrite <-list_fmap_compose.
      erewrite list_fmap_ext; [apply (NoDup_fst_map_to_list (to_tree <$> d))|].
      by intros ? [].
Qed.

Lemma sample_loads_dumps v : sample_loads (sample_dumps v) = Some v.
Proof.
  unfold sample_loads, sample_dumps. rewrite digits_pos_digits. simpl.
  rewrite decode_encode. simpl. by rewrite of_to_tree.
Qed.

(** ** The instances *)

Definition sample_fernet : FernetLib :=
  {| cipher := string;
     Fernet := sample_Fernet;
     generate_key := sample_generate_key;
     encrypt := sample_encrypt;
     decrypt := sample_decrypt;
     generate_key_valid := sample_generate_key_valid;
     decrypt_encrypt := sample_decrypt_encrypt |}.

Definition sample_json : JsonLib :=
  {| json_dumps := sample_dumps;
     json_loads := sample_loads;
     str_encode := λ s, s;
     bytes_decode := Some;
     json_loads_dumps := sample_loads_dumps;
     bytes_decode_encode := λ s, eq_refl |}.

#[local] Existing Instances sample_fernet sample_json.

(** ** Concrete states *)

(** The cipher of the key ["k5"]. *)
Definition k5 : @cipher sample_fernet := "k5".

(** A saved configuration, as [save_config] writes it under that key. *)
Definition sample_config : Dict := {["llm_provider" := PStr "openai"]}.

Definition sample_files (blob : bytes) : gmap Path file :=
  {[ default_config_file := File blob owner_only;
     default_master_key_file := File "k5" owner_only ]}.

(** A world holding [fs] in which every operation on the paths of
    [refused] is refused. *)
Definition refusing (refused : gset Path) (fs : gmap Path file) : World :=
  {| files := fs; deny_read := refused; deny_write := refused;
     deny_unlink := refused; deny_chmod := refused; entropy := 0 |}.

Definition good_blob : bytes := blob_of k5 0 sample_config.

(** The same blob with its first byte altered. *)
Definition tampered_blob : bytes :=
  match good_blob with
  | String a rest => String (xor_ascii "001"%char a) rest
  | EmptyString => EmptyString
  end.

(** A new manager in front of a saved configuration; of one whose blob was
    altered; of a configuration file without its key file; and a manager
    with its cipher cached in front of a configuration file it may not
    touch. *)
(** One setup mapping, built in two insertion orders. *)
Definition provider_then_key : Dict :=
  <["groq_api_key" := PStr "gsk_abc"]> (<["llm_provider" := PStr "groq"]> ∅).

Definition key_then_provider : Dict :=
  <["llm_provider" := PStr "groq"]> (<["groq_api_key" := PStr "gsk_abc"]> ∅).

Definition st_saved : state :=
  State (init default_config_file default_master_key_file)
    (refusing ∅ (sample_files good_blob)).

Definition st_tampered : state :=
  State (init default_config_file default_master_key_file)
    (refusing ∅ (sample_files tampered_blob)).

Definition st_config_only : state :=
  State (init default_config_file default_master_key_file)
    (refusing ∅ {[ default_config_file := File good_blob owner_only ]}).

Definition st_refused : state :=
  State (with_cipher k5 (init default_config_file default_master_key_file))
    (refusing {[ default_config_file ]} (sample_files good_blob)).

Definition st_refused_new : state :=
  State (init default_config_file default_master_key_file)
    (refusing {[ default_config_file ]} (sample_files good_blob)).

(** ** The theorems at work *)


Lemma load_config_not_configured_frame_witness :
  (file_exists (world st_config_only) (config_file (self st_config_only))
   = false
   ∨ file_exists (world st_config_only) (master_key_file (self st_config_only))
     = false)
  ∧ (load_config st_config_only).1 = inr None
  ∧ files (world (load_config st_config_only).2) = files (world st_config_only)
  ∧ (load_config st_config_only).2 = st_config_only.
Proof.
  assert (file_exists (world st_config_only)
            (master_key_file (self st_config_only)) = false) as Hk
    by reflexivity.
  split; [by right|].
  apply (load_config_not_configured_frame st_config_only). by right.
Defined.

Lemma delete_config_spec_witness :
  (config_file (self st_saved) ∉ deny_unlink (world st_saved))
  ∧ (master_key_file (self st_saved) ∉ deny_unlink (world st_saved))
  ∧ delete_config st_init = (inr tt, st_init)
  ∧ ∃ st', delete_config st_saved = (inr tt, st')
           ∧ file_exists (world st') default_config_file = false
           ∧ file_exists (world st') default_master_key_file = false
           ∧ is_configured st' = (inr false, st')
           ∧ load_config st' = (inr None, st').
Proof.
  assert (config_file (self st_saved) ∉ deny_unlink (world st_saved)) as Hc
    by apply not_elem_of_empty.
  assert (master_key_file (self st_saved) ∉ deny_unlink (world st_saved)) as Hk
    by apply not_elem_of_empty.
  split; [exact Hc|]. split; [exact Hk|]. split.
  - apply (proj1 (proj2 (delete_config_spec st_init))); reflexivity.
  - destruct (proj1 (delete_config_spec st_saved) (λ _, Hc) (λ _, Hk))
      as [st' Hdel].
    exists st'. split; [exact Hdel|].
    destruct (proj2 (proj2 (delete_config_spec st_saved)) st' Hdel)
      as (? & ? & _ & ? & ?).
    auto.
Defined.




(** ** A new manager, where the key file is live *)

(** On a new manager the round trip, the second instance and the two
    updates come out as the specification has them. *)
Example new_manager_round_trip :
  load_config (save_config sample_config st_init).2
  = (inr (Some (PDict sample_config)), (save_config sample_config st_init).2).
Proof.
  apply (save_load_roundtrip st_init sample_config).
  - by left.
  - apply not_elem_of_empty.
  - by vm_compute.
Qed.

Example new_manager_second_instance :
  (load_config (fresh_instance (save_config sample_config st_init).2)).1
  = inr (Some (PDict sample_config)).
Proof.
  destruct (fresh_instance_loads st_init sample_config
              (save_config sample_config st_init).2)
    as (st & -> & _); try done; apply not_elem_of_empty.
Qed.

Example new_manager_two_updates :
  (bind (update_config {["a" := PInt 1]})
     (λ _, bind (update_config {["b" := PInt 2]}) (λ _, load_config))
     st_init).1
  = inr (Some (PDict {["a" := PInt 1; "b" := PInt 2]})).
Proof. by vm_compute. Qed.

(** ** A manager after a reset, run on the sample libraries *)

Example reset_then_setup_load :
  (bind (setup_reset_setup sample_config sample_config) (λ _, load_config)
     st_init).1
  = inr None.
Proof. by vm_compute. Qed.

Example reset_then_setup_is_configured :
  (bind (setup_reset_setup sample_config sample_config) (λ _, is_configured)
     st_init).1
  = inr false.
Proof. by vm_compute. Qed.

Example reset_then_updates_stored :
  let st := (setup_reset_update_update sample_config
               {["a" := PInt 1]} {["b" := PInt 2]} st_init).2 in
  file_data (world st) default_config_file
  = Some (blob_of k5 3 {["b" := PInt 2]}).
Proof. by vm_compute. Qed.

(** ** A sample agent library and a sample platform *)

(** An agent is the configuration it was started with; it starts when the
    environment holds an [OPENAI_API_KEY].  The environment takes every
    string. *)
Definition sample_agent : AgentLib :=
  {| Agent := MovieAgentConfig;
     start_agent := λ config env,
       match env !! "OPENAI_API_KEY" with
       | Some _ => Some config
       | None => None
       end;
     environ_accepts := λ _, true |}.

(** Every file name resolves to a file of [/srv/movie-agent-demo], and no
    directory is a link. *)
Definition sample_paths : PathLib :=
  {| resolve_file := λ s, inr ["srv"; "movie-agent-demo"; s];
     resolve_path := inr;
     abspath := λ s, ["srv"; "movie-agent-demo"; s] |}.

#[local] Existing Instances sample_agent sample_paths.

(** ** More concrete states *)

(** The form data of a setup, with a separate key for the model. *)
Definition setup_data : Dict :=
  {[ "llm_provider" := PStr "openai";
     "openai_api_key" := PStr "sk-embed";
     "openai_llm_api_key" := PStr "sk-llm" ]}.

(** A new manager after one save, and after a second one. *)
Definition st_first : state := (save_config sample_config st_init).2.

Definition st_second : state := (save_config provider_then_key st_first).2.

(** A new manager in front of a key file the cipher rejects. *)
Definition st_bad_key : state :=
  State (init default_config_file default_master_key_file)
    (refusing ∅
       {[ default_config_file := File good_blob owner_only;
          default_master_key_file := File "not a key" owner_only ]}).

(** A saved configuration whose key file may not be touched, and an empty
    directory in which the configuration file may not be written. *)
Definition st_key_kept : state :=
  State (init default_config_file default_master_key_file)
    (refusing {[ default_master_key_file ]} (sample_files good_blob)).

Definition st_config_refused : state :=
  State (init default_config_file default_master_key_file)
    (refusing {[ default_config_file ]} ∅).

(** The application when it starts for the first time, once it is set up,
    and with an agent running. *)
Definition a_new : app_state :=
  {| config_manager := st_init; agent_app := None; environ := ∅ |}.

Definition a_configured : app_state :=
  {| config_manager := (save_config setup_data st_init).2;
     agent_app := None; environ := ∅ |}.

Definition a_running : app_state :=
  {| config_manager := st_saved;
     agent_app := Some (agent_config sample_config); environ := ∅ |}.

(** A session that holds three posters. *)
Definition three_posters : Dict :=
  {[ "poster_history" := PList [PStr "a"; PStr "b"; PStr "c"] ]}.

(** The service checked out beside the demo. *)
Definition fs_sibling : gset (list string) :=
  {[ ["srv"; "movie-agent-service"; "src"] ]}.

Definition service_dir : list string := ["srv"; "movie-agent-service"; "src"].

(** ** The further theorems at work *)

Lemma save_config_frame_witness :
  save_config sample_config st_init = (inr tt, st_first)
  ∧ denials (world st_first) = denials (world st_init)
  ∧ files (world st_first) !! "notes.txt" = files (world st_init) !! "notes.txt".
Proof.
  assert (save_config sample_config st_init = (inr tt, st_first)) as Hs
    by (vm_compute; reflexivity).
  split; [exact Hs|].
  destruct (save_config_frame st_init sample_config st_first Hs)
    as (Hother & _ & Hden & _).
  split; [exact Hden|]. apply Hother; discriminate.
Defined.

Lemma save_config_overwrites_witness :
  key_file_live st_init
  ∧ save_config sample_config st_init = (inr tt, st_first)
  ∧ save_config provider_then_key st_first = (inr tt, st_second)
  ∧ load_config st_second = (inr (Some (PDict provider_then_key)), st_second).
Proof.
  assert (key_file_live st_init) as Hlive by (left; reflexivity).
  assert (save_config sample_config st_init = (inr tt, st_first)) as Hs1
    by (vm_compute; reflexivity).
  assert (save_config provider_then_key st_first = (inr tt, st_second)) as Hs2
    by (vm_compute; reflexivity).
  split; [exact Hlive|]. split; [exact Hs1|]. split; [exact Hs2|].
  apply (save_config_overwrites st_init sample_config provider_then_key
           st_first st_second Hlive); [apply not_elem_of_empty|exact Hs1|exact Hs2].
Defined.

Lemma save_config_owner_only_witness :
  save_config sample_config st_init = (inr tt, st_first)
  ∧ mode <$> files (world st_first) !! default_config_file = Some owner_only
  ∧ mode <$> files (world st_first) !! default_master_key_file = Some owner_only.
Proof.
  assert (save_config sample_config st_init = (inr tt, st_first)) as Hs
    by (vm_compute; reflexivity).
  split; [exact Hs|].
  destruct (save_config_owner_only st_init sample_config st_first Hs)
    as [Hc Hk].
  split.
  - apply Hc, not_elem_of_empty.
  - apply Hk; [reflexivity|reflexivity|apply not_elem_of_empty|discriminate].
Defined.

Lemma malformed_key_file_witness :
  _cipher (self st_bad_key) = None
  ∧ Fernet "not a key" = None
  ∧ save_config sample_config st_bad_key = (inl ValueError_Fernet_key, st_bad_key)
  ∧ load_config st_bad_key
    = (inl (ValueError_Failed_to_load ValueError_Fernet_key), st_bad_key).
Proof.
  split; [reflexivity|]. split; [reflexivity|].
  destruct (malformed_key_file st_bad_key (File "not a key" owner_only)
              sample_config) as [Hsave Hload];
    [reflexivity|reflexivity|reflexivity|apply not_elem_of_empty|].
  split; [exact Hsave|]. apply Hload. reflexivity.
Defined.

Lemma reset_then_save_uncached_witness :
  _cipher (self st_saved) = None
  ∧ ∃ st1 st2,
      delete_config st_saved = (inr tt, st1)
      ∧ save_config sample_config st1 = (inr tt, st2)
      ∧ is_configured st2 = (inr true, st2)
      ∧ load_config st2 = (inr (Some (PDict sample_config)), st2).
Proof.
  split; [reflexivity|].
  apply (reset_then_save_uncached st_saved sample_config);
    [reflexivity|apply not_elem_of_empty..].
Defined.

Lemma delete_config_twice_witness :
  delete_config st_saved = (inr tt, (delete_config st_saved).2)
  ∧ delete_config (delete_config st_saved).2
    = (inr tt, (delete_config st_saved).2).
Proof.
  assert (delete_config st_saved = (inr tt, (delete_config st_saved).2)) as Hd
    by (vm_compute; reflexivity).
  split; [exact Hd|].
  exact (delete_config_twice st_saved _ Hd).
Defined.

Lemma delete_config_partial_witness :
  (default_config_file ∉ deny_unlink (world st_key_kept))
  ∧ default_master_key_file ∈ deny_unlink (world st_key_kept)
  ∧ ∃ st', delete_config st_key_kept
           = (inl (PermissionError default_master_key_file), st')
           ∧ file_exists (world st') default_config_file = false
           ∧ file_data (world st') default_master_key_file = Some "k5"
           ∧ is_configured st' = (inr false, st').
Proof.
  assert (default_config_file ∉ deny_unlink (world st_key_kept)) as Hc.
  { intros Hin. vm_compute in Hin. discriminate Hin. }
  assert (default_master_key_file ∈ deny_unlink (world st_key_kept)) as Hk
    by (vm_compute; reflexivity).
  split; [exact Hc|]. split; [exact Hk|].
  destruct (delete_config_partial st_key_kept)
    as (st' & Hdel & Hgone & Hkept & Hconf);
    [reflexivity|reflexivity|discriminate|exact Hc|exact Hk|].
  exists st'. split; [exact Hdel|]. split; [exact Hgone|].
  split; [exact Hkept|exact Hconf].
Defined.

Lemma save_config_partial_witness :
  (default_master_key_file ∉ deny_write (world st_config_refused))
  ∧ default_config_file ∈ deny_write (world st_config_refused)
  ∧ ∃ c st',
      save_config sample_config st_config_refused
      = (inl (PermissionError default_config_file), st')
      ∧ _cipher (self st') = Some c
      ∧ file_exists (world st') default_master_key_file = true
      ∧ file_exists (world st') default_config_file = false.
Proof.
  assert (default_master_key_file ∉ deny_write (world st_config_refused)) as Hk.
  { intros Hin. vm_compute in Hin. discriminate Hin. }
  assert (default_config_file ∈ deny_write (world st_config_refused)) as Hc
    by (vm_compute; reflexivity).
  split; [exact Hk|]. split; [exact Hc|].
  destruct (save_config_partial st_config_refused sample_config)
    as (c & st' & Hsave & Hcached & _ & Hkey & Hcfg);
    [reflexivity|reflexivity|discriminate|exact Hk|exact Hc|].
  exists c, st'. split; [exact Hsave|]. split; [exact Hcached|]. split.
  - exact (file_exists_Some _ _ _ Hkey).
  - apply file_exists_None. exact Hcfg.
Defined.

Lemma update_config_idempotent_witness :
  key_file_live st_init
  ∧ ∃ d, load_config (update_config {["a" := PInt 1]} st_init).2
         = (inr (Some (PDict d)), (update_config {["a" := PInt 1]} st_init).2)
         ∧ (load_config
              (update_config {["a" := PInt 1]}
                 (update_config {["a" := PInt 1]} st_init).2).2).1
           = inr (Some (PDict d)).
Proof.
  assert (key_file_live st_init) as Hlive by (left; reflexivity).
  split; [exact Hlive|].
  destruct (update_config_idempotent st_init {["a" := PInt 1]}
              (update_config {["a" := PInt 1]} st_init).2
              (update_config {["a" := PInt 1]}
                 (update_config {["a" := PInt 1]} st_init).2).2 Hlive)
    as (d & Hload1 & Hload2);
    [apply not_elem_of_empty|vm_compute; reflexivity|vm_compute; reflexivity|].
  exists d. split; [exact Hload1|]. rewrite Hload2. reflexivity.
Defined.

Lemma get_cipher_is_cached_witness :
  _get_cipher st_saved
  = (inr k5, State (with_cipher k5 (self st_saved)) (world st_saved))
  ∧ _get_cipher (State (with_cipher k5 (self st_saved)) empty_world)
    = (inr k5, State (with_cipher k5 (self st_saved)) empty_world).
Proof.
  assert (_get_cipher st_saved
          = (inr k5, State (with_cipher k5 (self st_saved)) (world st_saved)))
    as Hg by reflexivity.
  split; [exact Hg|].
  exact (get_cipher_is_cached st_saved k5 _ Hg empty_world).
Defined.

Lemma validate_setup_data_answers_witness :
  validate_setup_data provider_then_key
  = inr (false, Some "OpenAI API key is required for embeddings")
  ∧ "OpenAI API key is required for embeddings" ∈ validator_messages.
Proof.
  assert (validate_setup_data provider_then_key
          = inr (false, Some "OpenAI API key is required for embeddings"))
    as Hv by reflexivity.
  split; [exact Hv|].
  destruct (validate_setup_data_answers _ _ _ Hv) as [_ Hmsg].
  exact (Hmsg _ eq_refl).
Defined.

Lemma running_agent_kept_witness :
  agent_app a_running = Some (agent_config sample_config)
  ∧ agent_gate a_running = (inr (inr (agent_config sample_config)), a_running)
  ∧ agent_app (setup POST (Some (PDict setup_data)) a_running).2
    = Some (agent_config sample_config)
  ∧ agent_app (reset_config a_running).2 = Some (agent_config sample_config).
Proof.
  assert (agent_app a_running = Some (agent_config sample_config)) as Hg
    by reflexivity.
  split; [exact Hg|].
  destruct (running_agent_kept a_running _ Hg) as (_ & Hsetup & Hreset & Hgate).
  split; [apply Hgate; reflexivity|].
  split; [exact (proj1 (Hsetup POST (Some (PDict setup_data))))|exact Hreset].
Defined.

Lemma first_setup_succeeds_witness :
  validate_setup_data setup_data = inr (true, None)
  ∧ ∃ a',
      setup POST (Some (PDict setup_data)) a_new
      = (inr (Json (StatusMessage "success" "Configuration saved") 200), a')
      ∧ index a' = (inr (Render "index.html"), a')
      ∧ load_config (config_manager a')
        = (inr (Some (PDict setup_data)), config_manager a').
Proof.
  assert (validate_setup_data setup_data = inr (true, None)) as Hv
    by (vm_compute; reflexivity).
  split; [exact Hv|].
  destruct (first_setup_succeeds a_new setup_data Hv)
    as (a' & Hrun & Hindex & Hload & _);
    [reflexivity|reflexivity|apply not_elem_of_empty..|].
  exists a'. split; [exact Hrun|]. split; [exact Hindex|exact Hload].
Defined.

Lemma export_keys_openai_key_witness :
  truthy (dict_get setup_data "openai_api_key") = true
  ∧ export_keys setup_data a_new = (inr tt, (export_keys setup_data a_new).2)
  ∧ environ (export_keys setup_data a_new).2 !! "OPENAI_API_KEY"
    = Some "sk-embed".
Proof.
  assert (truthy (dict_get setup_data "openai_api_key") = true) as Ht
    by (vm_compute; reflexivity).
  assert (export_keys setup_data a_new
          = (inr tt, (export_keys setup_data a_new).2)) as Hrun
    by (vm_compute; reflexivity).
  split; [exact Ht|]. split; [exact Hrun|].
  destruct (export_keys_openai_key setup_data a_new _ Ht Hrun)
    as [(s & Hs & Henv) _].
  assert (setup_data !! "openai_api_key" = Some (PStr "sk-embed")) as Hd
    by (vm_compute; reflexivity).
  rewrite Hd in Hs. injection Hs as <-. exact Henv.
Defined.

Lemma setup_reset_setup_not_configured_witness :
  config_manager a_new = st_init
  ∧ validate_setup_data setup_data = inr (true, None)
  ∧ ∃ a3, file_exists (world (config_manager a3)) default_config_file = true
          ∧ index a3 = (inr (Redirect "setup"), a3).
Proof.
  assert (validate_setup_data setup_data = inr (true, None)) as Hv
    by (vm_compute; reflexivity).
  split; [reflexivity|]. split; [exact Hv|].
  destruct (setup_reset_setup_not_configured a_new setup_data setup_data
              eq_refl Hv Hv)
    as (a1 & a2 & a3 & _ & _ & _ & _ & Hfile & _ & Hindex & _).
  exists a3. split; [exact Hfile|exact Hindex].
Defined.

Lemma agent_gate_reuses_witness :
  agent_gate a_configured
  = (inr (inr (agent_config setup_data)), (agent_gate a_configured).2)
  ∧ agent_gate (agent_gate a_configured).2
    = (inr (inr (agent_config setup_data)), (agent_gate a_configured).2).
Proof.
  assert (agent_gate a_configured
          = (inr (inr (agent_config setup_data)),
             (agent_gate a_configured).2)) as Hgate
    by (vm_compute; reflexivity).
  split; [exact Hgate|].
  exact (proj1 (agent_gate_reuses a_configured _ _ Hgate)).
Defined.

Lemma record_poster_bounded_witness :
  three_posters !! "poster_history"
  = Some (PList [PStr "a"; PStr "b"; PStr "c"])
  ∧ ∃ session',
      record_poster (PStr "d") three_posters = (inr tt, session')
      ∧ session' !! "poster_history"
        = Some (PList [PStr "b"; PStr "c"; PStr "d"]).
Proof.
  assert (three_posters !! "poster_history"
          = Some (PList [PStr "a"; PStr "b"; PStr "c"])) as Hh
    by (vm_compute; reflexivity).
  split; [exact Hh|].
  destruct (record_poster_bounded (PStr "d") three_posters _ (or_introl Hh))
    as (session' & l' & Hrun & _ & Hhist & Hl' & _).
  exists session'. split; [exact Hrun|]. rewrite Hhist, Hl'. reflexivity.
Defined.

Lemma resolve_caches_witness :
  resolve fs_sibling (resolver_init "app.py")
  = (inr (Some service_dir), cache service_dir (resolver_init "app.py"))
  ∧ resolve ∅ (cache service_dir (resolver_init "app.py"))
    = (inr (Some service_dir), cache service_dir (resolver_init "app.py")).
Proof.
  assert (resolve fs_sibling (resolver_init "app.py")
          = (inr (Some service_dir), cache service_dir (resolver_init "app.py")))
    as Hr by (vm_compute; reflexivity).
  split; [exact Hr|].
  exact (proj2 (resolve_caches _ _ _ _ Hr) ∅).
Defined.

Lemma resolve_finds_existing_witness :
  resolve fs_sibling (resolver_init "app.py")
  = (inr (Some service_dir), cache service_dir (resolver_init "app.py"))
  ∧ ∃ c, c ∈ fs_sibling ∧ (resolve_path c = inr service_dir ∨ c = service_dir).
Proof.
  assert (resolve fs_sibling (resolver_init "app.py")
          = (inr (Some service_dir), cache service_dir (resolver_init "app.py")))
    as Hr by (vm_compute; reflexivity).
  split; [exact Hr|].
  destruct (resolve_finds_existing fs_sibling (resolver_init "app.py")
              service_dir _ eq_refl Hr)
    as [(f & c & _ & _ & Hin & Hres)|(Hin & _)].
  - exists c. split; [exact Hin|]. left. exact Hres.
  - exists service_dir. split; [exact Hin|]. right. reflexivity.
Defined.

Lemma add_to_sys_path_spec_witness :
  add_to_sys_path fs_sibling (resolver_init "app.py") ["/usr/lib/python3"]
  = (inr true, cache service_dir (resolver_init "app.py"),
     [path_str service_dir; "/usr/lib/python3"])
  ∧ add_to_sys_path ∅ (cache service_dir (resolver_init "app.py"))
      [path_str service_dir; "/usr/lib/python3"]
    = (inr true, cache service_dir (resolver_init "app.py"),
       [path_str service_dir; path_str service_dir; "/usr/lib/python3"]).
Proof.
  assert (add_to_sys_path fs_sibling (resolver_init "app.py")
            ["/usr/lib/python3"]
          = (inr true, cache service_dir (resolver_init "app.py"),
             [path_str service_dir; "/usr/lib/python3"])) as Hadd
    by (vm_compute; reflexivity).
  split; [exact Hadd|].
  destruct (add_to_sys_path_spec _ _ _ _ _ _ Hadd)
    as [(_ & p & _ & Hsp & Hagain)|(Hb & _)]; [|discriminate Hb].
  rewrite (Hagain ∅).
  assert (path_str p = path_str service_dir) as -> by congruence.
  reflexivity.
Defined.
